(** * Drone GPS simulator: the trajectory model and the connection handler

    A shallow embedding of [drone-simulation.py].

    - [DronePhysics]: the class of the same name.  Python floats are read as
      real numbers (rounding is not modelled), [math.cos], [math.sin] and
      [math.pi] as [cos], [sin] and [PI], the float remainder [%] as the
      floored remainder it computes, and the two draws of [random.random()]
      of one [update] call as two arguments of the call.
    - [Binary64]: the one line of [update] that wraps the angle, in the
      binary64 arithmetic the program runs on, for the inputs where rounding
      decides whether the wrapped angle stays below [2 pi].
    - [Handler]: [DroneSimulator.handle_client] as a labelled transition
      system over the events the event loop can deliver to the coroutine and
      to the two activities it gathers. *)

From Stdlib Require Import Reals Lra Lia List ZArith String Bool.
From Stdlib Require Floats.
Import ListNotations.

Local Open Scope R_scope.

(** ** Python's float remainder *)

(** [x % m] on floats: [ZeroDivisionError] (here [None]) when the divisor is
    zero, otherwise the remainder of the floored quotient, which takes the
    sign of the divisor.  Rounding is not modelled: in binary64 the
    remainder of a negative [x] of tiny magnitude by a positive [m] rounds
    to [m] itself ([Binary64.float_rem] below is the operation with its
    rounding). *)
Definition py_mod (x m : R) : option R :=
  if Req_EM_T m 0 then None
  else Some (x - IZR (Int_part (x / m)) * m).

(** ** The angle line in binary64 *)

Module Binary64.
Import Floats.
Import SpecFloat.

Set Warnings "-inexact-float".
Local Open Scope float_scope.








Set Warnings "inexact-float".

End Binary64.

Module DronePhysics.

(** The attributes [__init__] assigns, in the order of their first
    assignment. *)
Record t : Type := mk {
  base_lat : R;
  base_lng : R;
  angle : R;
  angular_speed : R;
  radius : R;
  lat : R;
  lng : R;
  alt : R;
  vel_lat : R;
  vel_lng : R;
  vel_alt : R;
  acc_lat : R;
  acc_lng : R;
  acc_alt : R;
  target_lat : R;
  target_lng : R;
  target_alt : R;
  smooth_factor : R;
  noise_amplitude : R
}.

(** [DronePhysics.__init__(init_lat, init_lng, init_alt)]. *)
Definition init (init_lat init_lng init_alt : R) : t :=
  let self_angle := 0 in
  let self_angular_speed := 0.15 in
  let self_radius := 0.0008 in
  let self_lat := init_lat + self_radius * cos self_angle in
  let self_lng := init_lng + self_radius * sin self_angle in
  let self_alt := init_alt in
  {| base_lat := init_lat;
     base_lng := init_lng;
     angle := self_angle;
     angular_speed := self_angular_speed;
     radius := self_radius;
     lat := self_lat;
     lng := self_lng;
     alt := self_alt;
     vel_lat := - self_radius * self_angular_speed * sin self_angle;
     vel_lng := self_radius * self_angular_speed * cos self_angle;
     vel_alt := 0;
     acc_lat := - self_radius * self_angular_speed ^ 2 * cos self_angle;
     acc_lng := - self_radius * self_angular_speed ^ 2 * sin self_angle;
     acc_alt := 0;
     target_lat := self_lat;
     target_lng := self_lng;
     target_alt := self_alt;
     smooth_factor := 0.95;
     noise_amplitude := 0.000001 |}.

(** [DronePhysics.update(dt)].  [rnd_lat] and [rnd_lng] are the values the
    first and the second call of [random.random()] return. *)
Definition update (dt rnd_lat rnd_lng : R) (self : t) : option t :=
  match py_mod (angle self + angular_speed self * dt) (2 * PI) with
  | None => None
  | Some new_angle =>
      let new_lat := base_lat self + radius self * cos new_angle in
      let new_lng := base_lng self + radius self * sin new_angle in
      let smooth_lat :=
        smooth_factor self * lat self + (1 - smooth_factor self) * new_lat in
      let smooth_lng :=
        smooth_factor self * lng self + (1 - smooth_factor self) * new_lng in
      let noise_lat := (rnd_lat - 0.5) * noise_amplitude self in
      let noise_lng := (rnd_lng - 0.5) * noise_amplitude self in
      let self_lat := smooth_lat + noise_lat in
      let self_lng := smooth_lng + noise_lng in
      let raw_vel_lat := - radius self * angular_speed self * sin new_angle in
      let raw_vel_lng := radius self * angular_speed self * cos new_angle in
      let raw_acc_lat :=
        - radius self * angular_speed self ^ 2 * cos new_angle in
      let raw_acc_lng :=
        - radius self * angular_speed self ^ 2 * sin new_angle in
      Some
        {| base_lat := base_lat self;
           base_lng := base_lng self;
           angle := new_angle;
           angular_speed := angular_speed self;
           radius := radius self;
           lat := self_lat;
           lng := self_lng;
           alt := alt self;
           vel_lat := smooth_factor self * vel_lat self
                      + (1 - smooth_factor self) * raw_vel_lat;
           vel_lng := smooth_factor self * vel_lng self
                      + (1 - smooth_factor self) * raw_vel_lng;
           vel_alt := 0;
           acc_lat := smooth_factor self * acc_lat self
                      + (1 - smooth_factor self) * raw_acc_lat;
           acc_lng := smooth_factor self * acc_lng self
                      + (1 - smooth_factor self) * raw_acc_lng;
           acc_alt := 0;
           target_lat := self_lat;
           target_lng := self_lng;
           target_alt := alt self;
           smooth_factor := smooth_factor self;
           noise_amplitude := noise_amplitude self |}
  end.

(** One call of [update] as its caller sees it: the elapsed time and the two
    random draws the call consumes. *)
Record tick : Type := mk_tick {
  tick_dt : R;
  tick_rnd_lat : R;
  tick_rnd_lng : R
}.

(** [random.random()] returns a float of the half-open interval [0, 1). *)
Definition is_sample (u : R) : Prop := 0 <= u < 1.

(** A call the spec allows: non-negative [dt], draws in range. *)
Definition valid_tick (k : tick) : Prop :=
  0 <= tick_dt k /\ is_sample (tick_rnd_lat k) /\ is_sample (tick_rnd_lng k).

(** Successive calls of [update] on one object. *)
Fixpoint run (ks : list tick) (self : t) : option t :=
  match ks with
  | [] => Some self
  | k :: ks' =>
      match update (tick_dt k) (tick_rnd_lat k) (tick_rnd_lng k) self with
      | None => None
      | Some self' => run ks' self'
      end
  end.

(** *** States, measures and invariants *)

(** The states of the trajectory model: the object [__init__] builds and
    what calls of [update] with a non-negative [dt] make of it. *)
Inductive reachable : t -> Prop :=
| reachable_init (init_lat init_lng init_alt : R) :
    reachable (init init_lat init_lng init_alt)
| reachable_update (k : tick) (s s' : t) :
    reachable s ->
    valid_tick k ->
    update (tick_dt k) (tick_rnd_lat k) (tick_rnd_lng k) s = Some s' ->
    reachable s'.

(** The constants [__init__] sets and [update] never assigns. *)
Definition configured (s : t) : Prop :=
  angular_speed s = 0.15 /\ radius s = 0.0008
  /\ smooth_factor s = 0.95 /\ noise_amplitude s = 0.000001.

(** The six steps of the spec's [advance(dt)] as a relation between the
    state before the call, the state after it and the two noise values
    added to the position. *)
Definition spec_advance (dt : R) (s s' : t) (n_lat n_lng : R) : Prop :=
  let ideal_lat := base_lat s + radius s * cos (angle s') in
  let ideal_lng := base_lng s + radius s * sin (angle s') in
  let ideal_vel_lat := - (radius s * angular_speed s * sin (angle s')) in
  let ideal_vel_lng := radius s * angular_speed s * cos (angle s') in
  let ideal_acc_lat := - (radius s * angular_speed s ^ 2 * cos (angle s')) in
  let ideal_acc_lng := - (radius s * angular_speed s ^ 2 * sin (angle s')) in
  (* 1. the angle advances by angularSpeed * dt, wrapped into [0, 2 pi) *)
  (0 <= angle s' < 2 * PI
   /\ exists k : Z, angle s' = angle s + angular_speed s * dt - IZR k * (2 * PI))
  (* 2-4. position: 0.95 of the previous value, 0.05 of the ideal one, and
     noise of at most half the amplitude on each axis *)
  /\ (- (noise_amplitude s / 2) <= n_lat <= noise_amplitude s / 2
      /\ - (noise_amplitude s / 2) <= n_lng <= noise_amplitude s / 2
      /\ lat s' = 0.95 * lat s + 0.05 * ideal_lat + n_lat
      /\ lng s' = 0.95 * lng s + 0.05 * ideal_lng + n_lng)
  (* 5. velocity and acceleration: the same smoothing, no noise *)
  /\ (vel_lat s' = 0.95 * vel_lat s + 0.05 * ideal_vel_lat
      /\ vel_lng s' = 0.95 * vel_lng s + 0.05 * ideal_vel_lng
      /\ vel_alt s' = 0.95 * vel_alt s + 0.05 * 0
      /\ acc_lat s' = 0.95 * acc_lat s + 0.05 * ideal_acc_lat
      /\ acc_lng s' = 0.95 * acc_lng s + 0.05 * ideal_acc_lng
      /\ acc_alt s' = 0.95 * acc_alt s + 0.05 * 0)
  (* 6. the target mirrors the new position and the fixed altitude *)
  /\ (target_lat s' = lat s' /\ target_lng s' = lng s'
      /\ target_alt s' = alt s /\ alt s' = alt s)
  (* nothing else changes *)
  /\ (base_lat s' = base_lat s /\ base_lng s' = base_lng s
      /\ angular_speed s' = angular_speed s /\ radius s' = radius s
      /\ smooth_factor s' = smooth_factor s
      /\ noise_amplitude s' = noise_amplitude s).

(** The attributes the random draws cannot reach. *)
Definition same_underlying (s1 s2 : t) : Prop :=
  angle s1 = angle s2
  /\ (vel_lat s1 = vel_lat s2 /\ vel_lng s1 = vel_lng s2
      /\ vel_alt s1 = vel_alt s2)
  /\ (acc_lat s1 = acc_lat s2 /\ acc_lng s1 = acc_lng s2
      /\ acc_alt s1 = acc_alt s2)
  /\ (alt s1 = alt s2 /\ target_alt s1 = target_alt s2)
  /\ (base_lat s1 = base_lat s2 /\ base_lng s1 = base_lng s2
      /\ angular_speed s1 = angular_speed s2 /\ radius s1 = radius s2
      /\ smooth_factor s1 = smooth_factor s2
      /\ noise_amplitude s1 = noise_amplitude s2).

(** Distance, in degrees, between the stored position and the centre of the
    circle. *)
Definition dist_to_center (s : t) : R :=
  sqrt ((lat s - base_lat s) ^ 2 + (lng s - base_lng s) ^ 2).

(** The position is a point of the disc of the circle, displaced on each
    axis by the noise the filter has accumulated: at most ten amplitudes. *)
Definition near_disc (s : t) : Prop :=
  exists p q : R,
    (p - base_lat s) ^ 2 + (q - base_lng s) ^ 2 <= radius s ^ 2
    /\ - (10 * noise_amplitude s) <= lat s - p <= 10 * noise_amplitude s
    /\ - (10 * noise_amplitude s) <= lng s - q <= 10 * noise_amplitude s.

(** The point of the circle at the current angle. *)
Definition ideal_lat (s : t) : R := base_lat s + radius s * cos (angle s).
Definition ideal_lng (s : t) : R := base_lng s + radius s * sin (angle s).

(** Distance between the stored position and that point. *)
Definition dist_to_ideal (s : t) : R :=
  sqrt ((lat s - ideal_lat s) ^ 2 + (lng s - ideal_lng s) ^ 2).

(** What the filter needs of a starting object: a wrapped angle, the
    retention factor of [__init__] and a non-negative amplitude.  Position,
    velocity and acceleration are arbitrary. *)
Definition filter_state (s : t) : Prop :=
  0 <= angle s < 2 * PI /\ smooth_factor s = 0.95 /\ 0 <= noise_amplitude s.

(** Calls with [dt = 0], one per pair of draws. *)
Definition frozen_ticks (draws : list (R * R)) : list tick :=
  map (fun d => mk_tick 0 (fst d) (snd d)) draws.

Definition valid_draws (d : R * R) : Prop :=
  is_sample (fst d) /\ is_sample (snd d).

(** *** Measures over sequences of calls *)

(** A call whose two draws are 0.5: [(random.random() - 0.5)] is zero on
    both axes. *)
Definition noiseless (k : tick) : Prop :=
  tick_rnd_lat k = 0.5 /\ tick_rnd_lng k = 0.5.

(** The stored velocity and acceleration are no larger than those of the
    circular motion itself. *)
Definition kinematic_bounds (s : t) : Prop :=
  vel_lat s ^ 2 + vel_lng s ^ 2 <= (radius s * angular_speed s) ^ 2
  /\ acc_lat s ^ 2 + acc_lng s ^ 2 <= (radius s * angular_speed s ^ 2) ^ 2.

(** The stored velocity and acceleration are those of a rotation, at the
    angular speed of the model, of a point that lies within [e] on each axis
    of the stored position: velocity is the offset from the centre turned a
    quarter and scaled by the angular speed, acceleration the offset scaled
    by minus its square. *)
Definition derivatives_track (e : R) (s : t) : Prop :=
  let w := angular_speed s in
  (- (w * e) <= w * (lat s - base_lat s) - vel_lng s <= w * e
   /\ - (w * e) <= w * (lng s - base_lng s) + vel_lat s <= w * e)
  /\ (- (w ^ 2 * e) <= w ^ 2 * (lat s - base_lat s) + acc_lat s <= w ^ 2 * e
      /\ - (w ^ 2 * e) <= w ^ 2 * (lng s - base_lng s) + acc_lng s
         <= w ^ 2 * e).

(** The position is a point of the disc of the circle. *)
Definition in_disc (s : t) : Prop :=
  (lat s - base_lat s) ^ 2 + (lng s - base_lng s) ^ 2 <= radius s ^ 2.

End DronePhysics.

(** ** The connection handler *)

Module Handler.

Local Open Scope string_scope.
Local Open Scope list_scope.

(** The values [json.dumps] is given: strings, floats and dicts, a dict as
    the list of its items in insertion order. *)
#[local] Unset Elimination Schemes.
Inductive json : Type :=
| JString (s : string)
| JNumber (x : R)
| JObject (items : list (string * json)).
#[local] Set Elimination Schemes.

Fixpoint get (key : string) (items : list (string * json)) : option json :=
  match items with
  | [] => None
  | (k, v) :: items' => if String.eqb k key then Some v else get key items'
  end.

(** The value under a key of a frame. *)
Definition field (key : string) (frame : json) : option json :=
  match frame with
  | JObject items => get key items
  | _ => None
  end.

Definition frame_type (frame : json) : option json := field "type" frame.

(** The attributes [DroneSimulator.__init__] assigns. *)
Record DroneSimulator : Type := mk_simulator {
  port : Z;
  drone_id : string;
  base_latitude : R;
  base_longitude : R;
  base_altitude : R;
  physics_update_interval : R
}.

(** [DroneSimulator.__init__(port, drone_id)]. *)
Definition simulator_init (port : Z) (drone_id : string) : DroneSimulator :=
  {| port := port;
     drone_id := drone_id;
     base_latitude := 53.218282;
     base_longitude := 63.658686;
     base_altitude := 120;
     physics_update_interval := 0.01 |}.

(** The dict [welcome_msg] of [handle_client]. *)
Definition welcome_msg (self : DroneSimulator) : json :=
  JObject
    [("type", JString "info");
     ("message", JString "Connected to drone simulator");
     ("drone_id", JString (drone_id self))].

(** The dict [gps_update] of [physics_loop]; [timestamp] is the string
    [datetime.now(timezone.utc).isoformat()] returns. *)
Definition gps_update
    (self : DroneSimulator) (drone_physics : DronePhysics.t)
    (timestamp : string) : json :=
  JObject
    [("type", JString "gps");
     ("drone_id", JString (drone_id self));
     ("latitude", JNumber (DronePhysics.lat drone_physics));
     ("longitude", JNumber (DronePhysics.lng drone_physics));
     ("altitude", JNumber (DronePhysics.alt drone_physics));
     ("velocity",
       JObject
         [("lat", JNumber (DronePhysics.vel_lat drone_physics));
          ("lng", JNumber (DronePhysics.vel_lng drone_physics));
          ("alt", JNumber (DronePhysics.vel_alt drone_physics))]);
     ("acceleration",
       JObject
         [("lat", JNumber (DronePhysics.acc_lat drone_physics));
          ("lng", JNumber (DronePhysics.acc_lng drone_physics));
          ("alt", JNumber (DronePhysics.acc_alt drone_physics))]);
     ("target",
       JObject
         [("lat", JNumber (DronePhysics.target_lat drone_physics));
          ("lng", JNumber (DronePhysics.target_lng drone_physics));
          ("alt", JNumber (DronePhysics.target_alt drone_physics))]);
     ("timestamp", JString timestamp)].

(** How an [await websocket.send(...)] ends. *)
Inductive send_outcome : Type :=
| SendOk
| SendConnectionClosed     (* raises websockets.exceptions.ConnectionClosed *)
| SendException.           (* raises another Exception *)

(** What the connection delivers to [async for message in websocket]: the
    [str] of a text frame or the [bytes] of a binary frame. *)
Inductive payload : Type :=
| TextFrame (text : string)
| BinaryFrame (data : list Byte.byte).

(** How [json.loads(message)] ends. *)
Inductive loads_outcome : Type :=
| Loaded
| RaisesJSONDecodeError
| RaisesException.         (* an Exception that is not a JSONDecodeError *)

(** How [async for message in websocket] ends. *)
Inductive receive_end : Type :=
| IterationEnded           (* the connection was closed normally *)
| ReceiveConnectionClosed  (* raises ConnectionClosed *)
| ReceiveException.        (* raises another Exception *)

(** The lines the handler prints. *)
Inductive log_entry : Type :=
| LogIncoming                         (* Incoming connection from: ... *)
| LogEstablished                      (* WebSocket connection established *)
| LogPhysicsDisconnected              (* ... disconnected during physics loop *)
| LogPhysicsError                     (* Error in physics loop: ... *)
| LogReceived (message : payload)     (* Received message: ... *)
| LogInvalidJSON (message : payload)  (* Invalid JSON received: ... *)
| LogDisconnected                     (* Client ... disconnected *)
| LogMessagesError                    (* Error handling messages: ... *)
| LogHandlingError.                   (* Error during WebSocket handling: ... *)

(** One of the two coroutines given to [asyncio.gather]. *)
Inductive activity : Type :=
| Running
| Done.

(** Where [handle_client] stands. *)
Inductive control : Type :=
| Welcoming    (* awaiting the send of the welcome message *)
| Gathering (last_time : R) (physics_loop message_handler : activity)
               (* awaiting asyncio.gather(physics_loop(), message_handler()) *)
| Returned.    (* the coroutine has returned: its locals are released *)

Record state : Type := mk_state {
  drone_physics : DronePhysics.t;
  ctl : control;
  sent : list (json * send_outcome);  (* calls of websocket.send, in order *)
  log : list log_entry
}.

(** What the event loop can make the handler do next.  The results of the
    calls into the environment ([websocket.send], the receive iterator,
    [json.loads], [time.time], [random.random], [datetime.now]) come with the
    event. *)
Inductive event : Type :=
| EvWelcome (outcome : send_outcome) (now : R)
    (* the welcome send ends; on success [time.time()] returns [now] *)
| EvTick (now rnd_lat rnd_lng : R) (timestamp : string)
         (outcome : send_outcome)
    (* one iteration of the loop of [physics_loop] *)
| EvMessage (message : payload) (outcome : loads_outcome)
    (* one iteration of the loop of [message_handler] *)
| EvReceiveEnd (cause : receive_end)
    (* the loop of [message_handler] ends *)
| EvGatherDone.
    (* [asyncio.gather] returns: both coroutines are done *)

(** [handle_client] up to its first [await]. *)
Definition accept (self : DroneSimulator) : state :=
  {| drone_physics :=
       DronePhysics.init
         (base_latitude self) (base_longitude self) (base_altitude self);
     ctl := Welcoming;
     sent := [];
     log := [LogIncoming] |}.

(** The body of [handle_client], one event at a time; [None] when the event
    cannot happen in the state.  A coroutine runs alone between two of its
    [await]s, and the two coroutines share no variable: only [physics_loop]
    uses [drone_physics], [last_time] and [websocket.send], only
    [message_handler] the receive side.  One iteration of either loop is
    therefore one event.  [asyncio.gather] starts both coroutines and returns
    when both have returned; nothing in the handler cancels a task. *)
Definition step (self : DroneSimulator) (st : state) (ev : event)
  : option state :=
  match ctl st with
  | Welcoming =>
      match ev with
      | EvWelcome outcome now =>
          let calls := sent st ++ [(welcome_msg self, outcome)] in
          match outcome with
          | SendOk =>
              Some {| drone_physics := drone_physics st;
                      ctl := Gathering now Running Running;
                      sent := calls;
                      log := log st ++ [LogEstablished] |}
          | SendConnectionClosed =>
              Some {| drone_physics := drone_physics st;
                      ctl := Returned;
                      sent := calls;
                      log := log st ++ [LogDisconnected] |}
          | SendException =>
              Some {| drone_physics := drone_physics st;
                      ctl := Returned;
                      sent := calls;
                      log := log st ++ [LogHandlingError] |}
          end
      | _ => None
      end
  | Gathering last_time loop handler =>
      match ev with
      | EvWelcome _ _ => None
      | EvTick now rnd_lat rnd_lng timestamp outcome =>
          match loop with
          | Done => None
          | Running =>
              let dt := now - last_time in
              match
                DronePhysics.update dt rnd_lat rnd_lng (drone_physics st)
              with
              | None =>
                  Some {| drone_physics := drone_physics st;
                          ctl := Gathering now Done handler;
                          sent := sent st;
                          log := log st ++ [LogPhysicsError] |}
              | Some physics' =>
                  let calls :=
                    sent st
                    ++ [(gps_update self physics' timestamp, outcome)] in
                  match outcome with
                  | SendOk =>
                      Some {| drone_physics := physics';
                              ctl := Gathering now Running handler;
                              sent := calls;
                              log := log st |}
                  | SendConnectionClosed =>
                      Some {| drone_physics := physics';
                              ctl := Gathering now Done handler;
                              sent := calls;
                              log := log st ++ [LogPhysicsDisconnected] |}
                  | SendException =>
                      Some {| drone_physics := physics';
                              ctl := Gathering now Done handler;
                              sent := calls;
                              log := log st ++ [LogPhysicsError] |}
                  end
              end
          end
      | EvMessage message outcome =>
          match handler with
          | Done => None
          | Running =>
              match outcome with
              | Loaded =>
                  Some {| drone_physics := drone_physics st;
                          ctl := Gathering last_time loop Running;
                          sent := sent st;
                          log := log st ++ [LogReceived message] |}
              | RaisesJSONDecodeError =>
                  Some {| drone_physics := drone_physics st;
                          ctl := Gathering last_time loop Running;
                          sent := sent st;
                          log := log st ++ [LogInvalidJSON message] |}
              | RaisesException =>
                  Some {| drone_physics := drone_physics st;
                          ctl := Gathering last_time loop Done;
                          sent := sent st;
                          log := log st ++ [LogMessagesError] |}
              end
          end
      | EvReceiveEnd cause =>
          match handler with
          | Done => None
          | Running =>
              Some {| drone_physics := drone_physics st;
                      ctl := Gathering last_time loop Done;
                      sent := sent st;
                      log := log st ++
                             match cause with
                             | IterationEnded => []
                             | ReceiveConnectionClosed => [LogDisconnected]
                             | ReceiveException => [LogMessagesError]
                             end |}
          end
      | EvGatherDone =>
          match loop, handler with
          | Done, Done =>
              Some {| drone_physics := drone_physics st;
                      ctl := Returned;
                      sent := sent st;
                      log := log st |}
          | _, _ => None
          end
      end
  | Returned => None
  end.

(** [handle_client] under a schedule: the events the event loop delivers,
    in order, from a state. *)
Fixpoint handle_client (self : DroneSimulator) (evs : list event) (st : state)
  : option state :=
  match evs with
  | [] => Some st
  | ev :: evs' =>
      match step self st ev with
      | None => None
      | Some st' => handle_client self evs' st'
      end
  end.

(** The frames handed to [websocket.send], in order. *)
Definition frames (st : state) : list json := map fst (sent st).

(** The frames whose send succeeded. *)
Definition delivered (st : state) : list json :=
  map fst (filter (fun c => match snd c with SendOk => true | _ => false end)
                  (sent st)).

(** Whether the frame's ["type"] is the string [name]. *)
Definition has_type (name : string) (frame : json) : bool :=
  match frame_type frame with
  | Some (JString s) => String.eqb s name
  | _ => false
  end.

Definition is_info (frame : json) : Prop := has_type "info" frame = true.
Definition is_gps (frame : json) : Prop := has_type "gps" frame = true.

(** The two coroutines of a handler that is awaiting [asyncio.gather]. *)
Definition physics_loop_of (c : control) : option activity :=
  match c with
  | Gathering _ loop _ => Some loop
  | _ => None
  end.

Definition message_handler_of (c : control) : option activity :=
  match c with
  | Gathering _ _ handler => Some handler
  | _ => None
  end.

(** The calls of [websocket.send] so far: none before the welcome, then the
    welcome message followed by telemetry only; after a welcome that failed,
    nothing more. *)
Definition sent_shape (self : DroneSimulator) (st : state) : Prop :=
  match ctl st with
  | Welcoming => sent st = []
  | Gathering _ _ _ =>
      exists calls,
        sent st = (welcome_msg self, SendOk) :: calls
        /\ Forall (fun c => is_gps (fst c)) calls
  | Returned =>
      exists outcome calls,
        sent st = (welcome_msg self, outcome) :: calls
        /\ Forall (fun c => is_gps (fst c)) calls
        /\ (outcome = SendOk \/ calls = [])
  end.

(** *** Kinds of events and of frames *)

(** The events of the receive side: the iterations and the end of the loop
    of [message_handler]. *)
Definition is_inbound (ev : event) : bool :=
  match ev with
  | EvMessage _ _ | EvReceiveEnd _ => true
  | _ => false
  end.

(** The events during which [websocket.send] is called: the welcome and the
    iterations of [physics_loop]. *)
Definition calls_send (ev : event) : bool :=
  match ev with
  | EvWelcome _ _ | EvTick _ _ _ _ _ => true
  | _ => false
  end.

(** A telemetry frame as a client reads it: the simulator's drone id, a
    position at the base altitude, no vertical velocity or acceleration, and
    a target that repeats the position. *)
Definition level_telemetry (self : DroneSimulator) (frame : json) : Prop :=
  exists latitude longitude vel_lat vel_lng acc_lat acc_lng timestamp,
    frame =
    JObject
      [("type", JString "gps");
       ("drone_id", JString (drone_id self));
       ("latitude", JNumber latitude);
       ("longitude", JNumber longitude);
       ("altitude", JNumber (base_altitude self));
       ("velocity",
         JObject
           [("lat", JNumber vel_lat); ("lng", JNumber vel_lng);
            ("alt", JNumber 0)]);
       ("acceleration",
         JObject
           [("lat", JNumber acc_lat); ("lng", JNumber acc_lng);
            ("alt", JNumber 0)]);
       ("target",
         JObject
           [("lat", JNumber latitude); ("lng", JNumber longitude);
            ("alt", JNumber (base_altitude self))]);
       ("timestamp", JString timestamp)].

(** The model of a handler flies level at the base altitude, and every
    frame handed to [websocket.send] is the welcome message or a level
    telemetry frame. *)
Definition level_flight (self : DroneSimulator) (st : state) : Prop :=
  DronePhysics.alt (drone_physics st) = base_altitude self
  /\ Forall (fun c => fst c = welcome_msg self
                      \/ level_telemetry self (fst c)) (sent st).

End Handler.

(** ** Facts about the trajectory model *)

Section PhysicsFacts.
Import DronePhysics.

Lemma two_PI_pos : 0 < 2 * PI.
Proof. pose proof PI_RGT_0; lra. Qed.

(** The floored remainder by a positive divisor is defined, lies in
    [0, m) and differs from its argument by a multiple of the divisor. *)
Lemma py_mod_pos (x m : R) :
  0 < m ->
  py_mod x m = Some (x - IZR (Int_part (x / m)) * m)
  /\ 0 <= x - IZR (Int_part (x / m)) * m < m.
Proof.
  intros Hm. unfold py_mod.
  destruct (Req_EM_T m 0) as [E | _]; [lra |].
  split; [reflexivity |].
  destruct (base_Int_part (x / m)) as [Hlo Hhi].
  set (q := IZR (Int_part (x / m))) in *.
  assert (Hx : x = x / m * m) by (field; lra).
  split.
  - assert (q * m <= x / m * m) by (apply Rmult_le_compat_r; lra). lra.
  - assert (x / m * m < (q + 1) * m) by (apply Rmult_lt_compat_r; lra). lra.
Qed.

(** A remainder of an argument already in [0, m) is the argument. *)
Lemma py_mod_small (x m : R) :
  0 <= x < m -> py_mod x m = Some x.
Proof.
  intros [Hx0 Hxm].
  assert (Hm : 0 < m) by lra.
  destruct (py_mod_pos x m Hm) as [-> _]. f_equal.
  assert (Hq : 0%Z = Int_part (x / m)).
  { apply Int_part_spec. simpl. split.
    - assert (x / m < 1); [| lra].
      apply (Rmult_lt_reg_r m); [lra |].
      replace (x / m * m) with x by (field; lra). lra.
    - apply Rmult_le_pos; [lra |]. left. apply Rinv_0_lt_compat. lra. }
  rewrite <- Hq. simpl. lra.
Qed.

(** What [update] returns, with the new angle named. *)
Lemma update_eq (dt u v : R) (s : t) :
  exists s',
    update dt u v s = Some s'
    /\ angle s' =
         angle s + angular_speed s * dt
         - IZR (Int_part ((angle s + angular_speed s * dt) / (2 * PI)))
           * (2 * PI)
    /\ 0 <= angle s' < 2 * PI.
Proof.
  unfold update.
  destruct (py_mod_pos (angle s + angular_speed s * dt) (2 * PI) two_PI_pos)
    as [-> Hr].
  eexists. split; [reflexivity |]. simpl. split; [reflexivity | exact Hr].
Qed.

(** Every attribute of the object [update] returns, in terms of the
    attributes before the call and of the new angle. *)
Lemma update_inv (dt u v : R) (s s' : t) :
  update dt u v s = Some s' ->
  py_mod (angle s + angular_speed s * dt) (2 * PI) = Some (angle s')
  /\ 0 <= angle s' < 2 * PI
  /\ (base_lat s' = base_lat s /\ base_lng s' = base_lng s
      /\ angular_speed s' = angular_speed s /\ radius s' = radius s
      /\ smooth_factor s' = smooth_factor s
      /\ noise_amplitude s' = noise_amplitude s)
  /\ (lat s' =
        smooth_factor s * lat s
        + (1 - smooth_factor s) * (base_lat s + radius s * cos (angle s'))
        + (u - 0.5) * noise_amplitude s
      /\ lng s' =
           smooth_factor s * lng s
           + (1 - smooth_factor s) * (base_lng s + radius s * sin (angle s'))
           + (v - 0.5) * noise_amplitude s
      /\ alt s' = alt s)
  /\ (vel_lat s' =
        smooth_factor s * vel_lat s
        + (1 - smooth_factor s)
          * (- radius s * angular_speed s * sin (angle s'))
      /\ vel_lng s' =
           smooth_factor s * vel_lng s
           + (1 - smooth_factor s)
             * (radius s * angular_speed s * cos (angle s'))
      /\ vel_alt s' = 0)
  /\ (acc_lat s' =
        smooth_factor s * acc_lat s
        + (1 - smooth_factor s)
          * (- radius s * angular_speed s ^ 2 * cos (angle s'))
      /\ acc_lng s' =
           smooth_factor s * acc_lng s
           + (1 - smooth_factor s)
             * (- radius s * angular_speed s ^ 2 * sin (angle s'))
      /\ acc_alt s' = 0)
  /\ (target_lat s' = lat s' /\ target_lng s' = lng s'
      /\ target_alt s' = alt s).
Proof.
  unfold update.
  destruct (py_mod_pos (angle s + angular_speed s * dt) (2 * PI) two_PI_pos)
    as [E Hr].
  rewrite E. intros H. injection H as <-. simpl.
  repeat split; try reflexivity; apply Hr.
Qed.

(** [update] never fails, whatever the arguments. *)
Lemma update_total (dt u v : R) (s : t) :
  exists s', update dt u v s = Some s'.
Proof. destruct (update_eq dt u v s) as (s' & H & _). eauto. Qed.

Lemma run_total (ks : list tick) (s : t) :
  exists s', run ks s = Some s'.
Proof.
  revert s. induction ks as [| k ks IH]; intros s; simpl.
  - eauto.
  - destruct (update_total (tick_dt k) (tick_rnd_lat k) (tick_rnd_lng k) s)
      as [s1 ->].
    apply IH.
Qed.

Lemma init_configured (a b c : R) : configured (init a b c).
Proof. unfold configured, init; simpl; lra. Qed.

Lemma update_configured (dt u v : R) (s s' : t) :
  configured s -> update dt u v s = Some s' -> configured s'.
Proof.
  intros (H1 & H2 & H3 & H4) H.
  destruct (update_inv _ _ _ _ _ H)
    as (_ & _ & (_ & _ & E1 & E2 & E3 & E4) & _).
  unfold configured. rewrite E1, E2, E3, E4. auto.
Qed.

Lemma reachable_configured (s : t) : reachable s -> configured s.
Proof.
  induction 1 as [a b c | k s s' _ IH _ H].
  - apply init_configured.
  - eapply update_configured; eauto.
Qed.

Lemma reachable_run (ks : list tick) (s s' : t) :
  reachable s -> Forall valid_tick ks -> run ks s = Some s' -> reachable s'.
Proof.
  revert s. induction ks as [| k ks IH]; intros s Hs Hv; simpl.
  - intros [= <-]. exact Hs.
  - inversion Hv as [| ? ? Hk Hks]; subst.
    destruct (update _ _ _ s) as [s1 |] eqn:E; [| discriminate].
    apply IH; [| exact Hks]. eapply reachable_update; eauto.
Qed.

(** The calls up to the [n]-th of a sequence of valid calls are valid. *)
Lemma valid_prefix (n : nat) (ks : list tick) :
  Forall valid_tick ks -> Forall valid_tick (firstn n ks).
Proof.
  intros H. rewrite <- (firstn_skipn n ks) in H.
  apply Forall_app in H. apply H.
Qed.

(** A sequence of valid calls on a fresh model returns, in a state of the
    model. *)
Lemma run_reachable (a b c : R) (ks : list tick) :
  Forall valid_tick ks ->
  exists s, run ks (init a b c) = Some s /\ reachable s.
Proof.
  intros Hv. destruct (run_total ks (init a b c)) as [s E].
  exists s. split; [exact E |].
  eapply reachable_run; [apply reachable_init | exact Hv | exact E].
Qed.

(** The vertical components are zero in every state of the model. *)
Lemma reachable_vertical (s : t) :
  reachable s -> vel_alt s = 0 /\ acc_alt s = 0 /\ target_alt s = alt s.
Proof.
  induction 1 as [a b c | k s s' _ _ _ H].
  - simpl. auto.
  - destruct (update_inv _ _ _ _ _ H)
      as (_ & _ & _ & (_ & _ & Ea) & (_ & _ & Ev) & (_ & _ & Ec)
          & (_ & _ & Et)).
    rewrite Ev, Ec, Et, Ea. auto.
Qed.

Lemma reachable_angle (s : t) : reachable s -> 0 <= angle s < 2 * PI.
Proof.
  induction 1 as [a b c | k s s' _ _ _ H].
  - simpl. pose proof two_PI_pos. lra.
  - apply (update_inv _ _ _ _ _ H).
Qed.

Lemma run_alt (ks : list tick) (s s' : t) :
  run ks s = Some s' -> alt s' = alt s.
Proof.
  revert s. induction ks as [| k ks IH]; intros s; simpl.
  - intros [= <-]. reflexivity.
  - destruct (update _ _ _ s) as [s1 |] eqn:E; [| discriminate].
    intros H. rewrite (IH _ H).
    apply (update_inv _ _ _ _ _ E).
Qed.

(** *** One call *)

(** C1: in every state of the model, one call [update(dt)] with [dt >= 0]
    returns, and the state it leaves is the one the spec's steps describe:
    position smoothed 0.95/0.05 toward the ideal point at the new angle plus
    a noise of at most half the amplitude on each axis, velocity and
    acceleration smoothed the same way without noise, target equal to the
    new position and the fixed altitude. *)
Theorem update_refines_spec_advance (s : t) (dt u v : R) :
  reachable s -> 0 <= dt -> is_sample u -> is_sample v ->
  exists s',
    update dt u v s = Some s'
    /\ spec_advance dt s s'
         ((u - 0.5) * noise_amplitude s) ((v - 0.5) * noise_amplitude s).
Proof.
  intros Hs Hdt Hu Hv.
  destruct (update_total dt u v s) as [s' E]. exists s'. split; [exact E |].
  destruct (reachable_configured s Hs) as (Hw & Hr & Hf & Ha).
  destruct (reachable_vertical s Hs) as (Hva & Hca & _).
  destruct (update_inv _ _ _ _ _ E)
    as (Hm & Hrange & Hframe & (El & Eg & Ealt) & (Evl & Evg & Eva)
        & (Ecl & Ecg & Eca) & (Etl & Etg & Eta)).
  unfold is_sample in Hu, Hv.
  unfold spec_advance; cbv zeta.
  repeat match goal with |- _ /\ _ => split end;
    try assumption; try tauto; try lra.
  - destruct (py_mod_pos (angle s + angular_speed s * dt) (2 * PI) two_PI_pos)
      as [E' _].
    rewrite E' in Hm. injection Hm as Hm. eexists. symmetry. exact Hm.
  - rewrite Ha. lra.
  - rewrite Ha. lra.
  - rewrite Ha. lra.
  - rewrite Ha. lra.
  - rewrite El, Hf. lra.
  - rewrite Eg, Hf. lra.
  - rewrite Evl, Hf. lra.
  - rewrite Evg, Hf. lra.
  - rewrite Ecl, Hf. lra.
  - rewrite Ecg, Hf. lra.
Qed.

Lemma update_refines_spec_advance_witness :
  exists s',
    update 1 0.25 0.75 (init 0 0 100) = Some s'
    /\ spec_advance 1 (init 0 0 100) s'
         ((0.25 - 0.5) * noise_amplitude (init 0 0 100))
         ((0.75 - 0.5) * noise_amplitude (init 0 0 100)).
Proof.
  apply (update_refines_spec_advance (init 0 0 100) 1 0.25 0.75).
  - apply reachable_init.
  - lra.
  - unfold is_sample; lra.
  - unfold is_sample; lra.
Defined.




(** *** Sequences of calls *)

(** C4: from a freshly constructed model, after every call of a sequence of
    [update(dt)] calls with [dt >= 0] (after the first [n] calls, for every
    [n]) the angle lies in [0, 2 pi). *)
Theorem angle_in_range_after_every_call
    (init_lat init_lng init_alt : R) (ks : list tick) :
  Forall valid_tick ks ->
  forall n : nat,
    exists s,
      run (firstn n ks) (init init_lat init_lng init_alt) = Some s
      /\ 0 <= angle s < 2 * PI.
Proof.
  intros Hv n.
  destruct (run_reachable init_lat init_lng init_alt (firstn n ks)
              (valid_prefix n ks Hv)) as (s & E & Hs).
  exists s. split; [exact E | apply reachable_angle, Hs].
Qed.

Lemma angle_in_range_after_every_call_witness :
  exists s,
    run (firstn 1 [mk_tick 1 0.25 0.75; mk_tick 50 0 0.5]) (init 0 0 100)
    = Some s
    /\ 0 <= angle s < 2 * PI.
Proof.
  apply (angle_in_range_after_every_call 0 0 100).
  repeat constructor; simpl; lra.
Defined.

(** C5: after every call of a sequence of [update(dt)] calls with
    [dt >= 0] (after the first [n] calls, for every [n]), the altitude is the
    one given at construction and the vertical components of velocity and
    acceleration are zero. *)
Theorem altitude_fixed_vertical_zero
    (init_lat init_lng init_alt : R) (ks : list tick) :
  Forall valid_tick ks ->
  forall n : nat,
    exists s,
      run (firstn n ks) (init init_lat init_lng init_alt) = Some s
      /\ alt s = init_alt /\ vel_alt s = 0 /\ acc_alt s = 0.
Proof.
  intros Hv n.
  destruct (run_reachable init_lat init_lng init_alt (firstn n ks)
              (valid_prefix n ks Hv)) as (s & E & Hs).
  exists s. split; [exact E |].
  split; [apply (run_alt _ _ _ E) |].
  destruct (reachable_vertical s Hs) as (? & ? & _). auto.
Qed.

Lemma altitude_fixed_vertical_zero_witness :
  exists s,
    run (firstn 2 [mk_tick 1 0.25 0.75; mk_tick 50 0 0.5]) (init 0 0 100)
    = Some s
    /\ alt s = 100 /\ vel_alt s = 0 /\ acc_alt s = 0.
Proof.
  apply (altitude_fixed_vertical_zero 0 0 100).
  repeat constructor; simpl; lra.
Defined.

(** *** Noise *)

Lemma same_underlying_refl (s : t) : same_underlying s s.
Proof. unfold same_underlying; tauto. Qed.

Lemma update_same_underlying (dt u1 v1 u2 v2 : R) (s1 s2 s1' s2' : t) :
  same_underlying s1 s2 ->
  update dt u1 v1 s1 = Some s1' ->
  update dt u2 v2 s2 = Some s2' ->
  same_underlying s1' s2'.
Proof.
  intros (Ha & (Hvl & Hvg & Hva) & (Hcl & Hcg & Hca) & (Hal & Hta)
          & (Hbl & Hbg & Hw & Hr & Hf & Hn)) E1 E2.
  destruct (update_inv _ _ _ _ _ E1)
    as (M1 & _ & (F1 & F2 & F3 & F4 & F5 & F6) & (_ & _ & A1)
        & (V1 & V2 & V3) & (C1 & C2 & C3) & (_ & _ & T1)).
  destruct (update_inv _ _ _ _ _ E2)
    as (M2 & _ & (G1 & G2 & G3 & G4 & G5 & G6) & (_ & _ & A2)
        & (W1 & W2 & W3) & (D1 & D2 & D3) & (_ & _ & T2)).
  assert (Hang : angle s1' = angle s2').
  { rewrite Ha, Hw in M1. rewrite M1 in M2. injection M2 as M2. exact M2. }
  unfold same_underlying.
  rewrite V1, V2, V3, C1, C2, C3, W1, W2, W3, D1, D2, D3.
  rewrite F1, F2, F3, F4, F5, F6, G1, G2, G3, G4, G5, G6, A1, A2, T1, T2.
  rewrite Hang, Hvl, Hvg, Hcl, Hcg, Hal, Hbl, Hbg, Hw, Hr, Hf, Hn.
  tauto.
Qed.

Lemma run_same_underlying (ks1 ks2 : list tick) :
  map tick_dt ks1 = map tick_dt ks2 ->
  forall s1 s2 s1' s2',
    same_underlying s1 s2 ->
    run ks1 s1 = Some s1' -> run ks2 s2 = Some s2' ->
    same_underlying s1' s2'.
Proof.
  revert ks2. induction ks1 as [| k1 ks1 IH]; intros [| k2 ks2] Hd;
    try discriminate; simpl; intros s1 s2 s1' s2' H.
  - intros [= <-] [= <-]. exact H.
  - injection Hd as Hk Hd.
    destruct (update _ _ _ s1) as [t1 |] eqn:E1; [| discriminate].
    destruct (update _ _ _ s2) as [t2 |] eqn:E2; [| discriminate].
    apply (IH ks2 Hd). rewrite <- Hk in E2.
    eapply update_same_underlying; eauto.
Qed.

(** C8: two runs of models constructed with the same parameters and fed the
    same sequence of [dt] values, whatever random draws each one receives,
    both return after every call (after the first [n] calls, for every [n])
    and agree there on angle, velocity and acceleration, and on every
    attribute other than position and target position; within one call, two
    different pairs of draws give objects that differ at most in [lat],
    [lng], [target_lat] and [target_lng]. *)
Theorem noise_reaches_position_only
    (init_lat init_lng init_alt : R) (ks1 ks2 : list tick) :
  map tick_dt ks1 = map tick_dt ks2 ->
  (forall n : nat,
     exists s1 s2,
       run (firstn n ks1) (init init_lat init_lng init_alt) = Some s1
       /\ run (firstn n ks2) (init init_lat init_lng init_alt) = Some s2
       /\ same_underlying s1 s2)
  /\ (forall (s : t) (dt u1 v1 u2 v2 : R),
        exists s1 s2,
          update dt u1 v1 s = Some s1 /\ update dt u2 v2 s = Some s2
          /\ same_underlying s1 s2).
Proof.
  intros Hd. split.
  - intros n.
    destruct (run_total (firstn n ks1) (init init_lat init_lng init_alt))
      as [s1 E1].
    destruct (run_total (firstn n ks2) (init init_lat init_lng init_alt))
      as [s2 E2].
    exists s1, s2. split; [exact E1 | split; [exact E2 |]].
    apply (run_same_underlying (firstn n ks1) (firstn n ks2)) with
      (s1 := init init_lat init_lng init_alt)
      (s2 := init init_lat init_lng init_alt);
      try assumption; [| apply same_underlying_refl].
    rewrite <- !firstn_map, Hd. reflexivity.
  - intros s dt u1 v1 u2 v2.
    destruct (update_total dt u1 v1 s) as [s1 E1].
    destruct (update_total dt u2 v2 s) as [s2 E2].
    exists s1, s2. split; [exact E1 | split; [exact E2 |]].
    eapply update_same_underlying; eauto using same_underlying_refl.
Qed.

Lemma noise_reaches_position_only_witness :
  exists s1 s2,
    run (firstn 2 [mk_tick 1 0.25 0.75; mk_tick 2 0 0.5]) (init 0 0 100)
    = Some s1
    /\ run (firstn 2 [mk_tick 1 0.5 0.125; mk_tick 2 0.75 0]) (init 0 0 100)
       = Some s2
    /\ same_underlying s1 s2.
Proof.
  apply (noise_reaches_position_only 0 0 100
           [mk_tick 1 0.25 0.75; mk_tick 2 0 0.5]
           [mk_tick 1 0.5 0.125; mk_tick 2 0.75 0]).
  reflexivity.
Defined.

(** *** Distance to the centre *)

(** A call with [dt = 0] on an object whose angle is in range leaves the
    angle as it is. *)
Lemma update_zero_angle (u v : R) (s s' : t) :
  0 <= angle s < 2 * PI ->
  update 0 u v s = Some s' -> angle s' = angle s.
Proof.
  intros Hr E.
  destruct (update_inv _ _ _ _ _ E) as (M & _).
  replace (angle s + angular_speed s * 0) with (angle s) in M by ring.
  rewrite (py_mod_small _ _ Hr) in M. injection M as M. symmetry. exact M.
Qed.

(** The triangle inequality of the plane, on squares. *)
Lemma plane_triangle (x y e1 e2 r f : R) :
  0 <= r -> 0 <= f ->
  x ^ 2 + y ^ 2 <= r ^ 2 ->
  e1 ^ 2 + e2 ^ 2 <= f ^ 2 ->
  (x + e1) ^ 2 + (y + e2) ^ 2 <= (r + f) ^ 2.
Proof.
  intros Hr Hf Hxy He.
  assert (Hcs : x * e1 + y * e2 <= r * f).
  { destruct (Rle_or_lt (x * e1 + y * e2) (r * f)) as [H | H]; [exact H |].
    exfalso.
    assert (H0 : 0 <= r * f) by (apply Rmult_le_pos; assumption).
    assert (H1 : (r * f) ^ 2 < (x * e1 + y * e2) ^ 2) by nra.
    assert (H2 : (x * e1 + y * e2) ^ 2 <= (x ^ 2 + y ^ 2) * (e1 ^ 2 + e2 ^ 2))
      by (pose proof (pow2_ge_0 (x * e2 - y * e1)); nra).
    assert (H3 : (x ^ 2 + y ^ 2) * (e1 ^ 2 + e2 ^ 2) <= r ^ 2 * f ^ 2).
    { apply Rmult_le_compat; try assumption.
      - pose proof (pow2_ge_0 x); pose proof (pow2_ge_0 y); lra.
      - pose proof (pow2_ge_0 e1); pose proof (pow2_ge_0 e2); lra. }
    nra. }
  nra.
Qed.

(** A convex blend of a point of the disc with a point of its circle is a
    point of the disc. *)
Lemma disc_blend (x y c d r : R) :
  0 <= r ->
  x ^ 2 + y ^ 2 <= r ^ 2 ->
  c ^ 2 + d ^ 2 = 1 ->
  (0.95 * x + 0.05 * (r * c)) ^ 2 + (0.95 * y + 0.05 * (r * d)) ^ 2 <= r ^ 2.
Proof.
  intros Hr Hxy Hcd.
  pose proof (pow2_ge_0 (x - r * c)) as H1.
  pose proof (pow2_ge_0 (y - r * d)) as H2.
  assert (H3 : r ^ 2 * (c ^ 2 + d ^ 2) = r ^ 2) by (rewrite Hcd; ring).
  nra.
Qed.

Lemma cos_sin_unit (a : R) : cos a ^ 2 + sin a ^ 2 = 1.
Proof. pose proof (sin2_cos2 a) as H. unfold Rsqr in H. lra. Qed.

Lemma init_near_disc (a b c : R) : near_disc (init a b c).
Proof.
  exists (lat (init a b c)), (lng (init a b c)). simpl.
  rewrite cos_0, sin_0. split; [| lra].
  replace (a + 0.0008 * 1 - a) with 0.0008 by ring.
  replace (b + 0.0008 * 0 - b) with 0 by ring. lra.
Qed.

Lemma update_near_disc (k : tick) (s s' : t) :
  configured s -> valid_tick k -> near_disc s ->
  update (tick_dt k) (tick_rnd_lat k) (tick_rnd_lng k) s = Some s' ->
  near_disc s'.
Proof.
  intros (Hw & Hr & Hf & Ha) (_ & Hu & Hv) (p & q & Hd & Hp & Hq) E.
  unfold is_sample in Hu, Hv.
  destruct (update_inv _ _ _ _ _ E)
    as (_ & _ & (F1 & F2 & _ & F4 & _ & F6) & (El & Eg & _) & _).
  exists (0.95 * p + 0.05 * (base_lat s + radius s * cos (angle s'))),
         (0.95 * q + 0.05 * (base_lng s + radius s * sin (angle s'))).
  rewrite F1, F2, F4, F6, El, Eg, Hf, Ha in *. rewrite Hr in *.
  split; [| split; lra].
  replace (0.95 * p + 0.05 * (base_lat s + 0.0008 * cos (angle s'))
           - base_lat s)
    with (0.95 * (p - base_lat s) + 0.05 * (0.0008 * cos (angle s')))
    by lra.
  replace (0.95 * q + 0.05 * (base_lng s + 0.0008 * sin (angle s'))
           - base_lng s)
    with (0.95 * (q - base_lng s) + 0.05 * (0.0008 * sin (angle s')))
    by lra.
  apply disc_blend; [lra | exact Hd | apply cos_sin_unit].
Qed.

Lemma reachable_near_disc (s : t) : reachable s -> near_disc s.
Proof.
  induction 1 as [a b c | k s s' Hs IH Hk E].
  - apply init_near_disc.
  - eapply update_near_disc; eauto using reachable_configured.
Qed.

Lemma sqrt_le_of_sq (x b : R) : 0 <= b -> x <= b ^ 2 -> sqrt x <= b.
Proof.
  intros Hb Hx.
  destruct (Rle_or_lt 0 x) as [H0 | H0].
  - rewrite <- (sqrt_pow2 b Hb). apply sqrt_le_1; try assumption.
    apply pow2_ge_0.
  - rewrite sqrt_neg_0; lra.
Qed.

Lemma near_disc_dist (s : t) :
  configured s -> near_disc s ->
  dist_to_center s <= radius s + 10 * sqrt 2 * noise_amplitude s.
Proof.
  intros (_ & Hr & _ & Ha) (p & q & Hd & Hp & Hq).
  unfold dist_to_center.
  assert (H2 : sqrt 2 ^ 2 = 2) by (apply pow2_sqrt; lra).
  assert (H2p : 0 <= sqrt 2) by apply sqrt_pos.
  assert (HA : 0 <= noise_amplitude s) by (rewrite Ha; lra).
  apply sqrt_le_of_sq.
  - rewrite Hr. apply Rplus_le_le_0_compat; [lra |].
    apply Rmult_le_pos; [apply Rmult_le_pos; lra | exact HA].
  - replace (lat s - base_lat s) with ((p - base_lat s) + (lat s - p))
      by ring.
    replace (lng s - base_lng s) with ((q - base_lng s) + (lng s - q))
      by ring.
    apply plane_triangle; try assumption.
    + rewrite Hr; lra.
    + apply Rmult_le_pos; [apply Rmult_le_pos; lra | exact HA].
    + replace ((10 * sqrt 2 * noise_amplitude s) ^ 2)
        with (sqrt 2 ^ 2 * (10 * noise_amplitude s) ^ 2) by ring.
      rewrite H2.
      assert ((lat s - p) ^ 2 <= (10 * noise_amplitude s) ^ 2) by nra.
      assert ((lng s - q) ^ 2 <= (10 * noise_amplitude s) ^ 2) by nra.
      lra.
Qed.

(** C3, as amended: from a freshly constructed model, after every call of a
    sequence of [update(dt)] calls with [dt >= 0] (after the first [n] calls,
    for every [n]) the position lies within
    [radius + 10 * sqrt 2 * noise_amplitude] of the centre.  The noise is
    added to the stored position, so the filter carries it over: each axis
    accumulates up to [noise_amplitude / 2 / (1 - 0.95)], ten amplitudes. *)
Theorem position_within_radius_plus_accumulated_noise
    (init_lat init_lng init_alt : R) (ks : list tick) :
  Forall valid_tick ks ->
  forall n : nat,
    exists s,
      run (firstn n ks) (init init_lat init_lng init_alt) = Some s
      /\ dist_to_center s <= radius s + 10 * sqrt 2 * noise_amplitude s.
Proof.
  intros Hv n.
  destruct (run_reachable init_lat init_lng init_alt (firstn n ks)
              (valid_prefix n ks Hv)) as (s & E & Hs).
  exists s. split; [exact E |].
  apply near_disc_dist;
    [apply reachable_configured | apply reachable_near_disc]; exact Hs.
Qed.

Lemma position_within_radius_plus_accumulated_noise_witness :
  exists s,
    run (firstn 3 [mk_tick 0 0.9 0.5; mk_tick 0 0.9 0.5; mk_tick 0 0.9 0.5])
        (init 0 0 100) = Some s
    /\ dist_to_center s <= radius s + 10 * sqrt 2 * noise_amplitude s.
Proof.
  apply (position_within_radius_plus_accumulated_noise 0 0 100).
  repeat constructor; simpl; lra.
Defined.

(** The object after one call with [dt = 0] and draws [0.9] and [0.5], when
    the angle is zero and the position lies on the latitude axis. *)
Lemma update_frozen_at_zero (s s' : t) :
  configured s -> angle s = 0 -> lng s = base_lng s ->
  update 0 0.9 0.5 s = Some s' ->
  configured s' /\ angle s' = 0 /\ lng s' = base_lng s'
  /\ base_lat s' = base_lat s
  /\ lat s' - base_lat s' =
       0.95 * (lat s - base_lat s) + 0.05 * 0.0008 + 0.4 * 0.000001.
Proof.
  intros Hc Ha Hl E.
  assert (Hc' : configured s') by (eapply update_configured; eauto).
  assert (Ha' : angle s' = 0).
  { rewrite <- Ha. apply (update_zero_angle 0.9 0.5 s s'); [| exact E].
    rewrite Ha. pose proof two_PI_pos. lra. }
  destruct Hc as (_ & Hr & Hf & Hn).
  destruct (update_inv _ _ _ _ _ E)
    as (_ & _ & (F1 & F2 & _) & (El & Eg & _) & _).
  rewrite Ha', Hr, Hf, Hn in El, Eg.
  rewrite cos_0 in El. rewrite sin_0 in Eg.
  split; [exact Hc' |]. split; [exact Ha' |].
  split; [rewrite F2, Eg; lra |].
  split; [exact F1 |].
  rewrite F1, El. lra.
Qed.

(** C3, as stated, fails: three calls with [dt = 0] whose first draw is
    [0.9] leave the position at [radius + 1.141 * noise_amplitude] from the
    centre, farther than [radius + noise_amplitude]. *)
Lemma position_bound_counterexample :
  let ks := [mk_tick 0 0.9 0.5; mk_tick 0 0.9 0.5; mk_tick 0 0.9 0.5] in
  Forall valid_tick ks
  /\ exists s,
       run ks (init 0 0 100) = Some s
       /\ radius s + noise_amplitude s < dist_to_center s.
Proof.
  cbv zeta. split; [repeat constructor; simpl; lra |].
  destruct (run_total [mk_tick 0 0.9 0.5; mk_tick 0 0.9 0.5; mk_tick 0 0.9 0.5]
              (init 0 0 100)) as [s E].
  exists s. split; [exact E |].
  simpl in E.
  destruct (update 0 0.9 0.5 (init 0 0 100)) as [s1 |] eqn:E1;
    [| discriminate].
  destruct (update 0 0.9 0.5 s1) as [s2 |] eqn:E2; [| discriminate].
  destruct (update 0 0.9 0.5 s2) as [s3 |] eqn:E3; [| discriminate].
  injection E as <-.
  destruct (update_frozen_at_zero _ _ (init_configured 0 0 100)
              eq_refl ltac:(simpl; rewrite sin_0; lra) E1)
    as (C1 & A1 & L1 & B1 & D1).
  destruct (update_frozen_at_zero _ _ C1 A1 L1 E2)
    as (C2 & A2 & L2 & B2 & D2).
  destruct (update_frozen_at_zero _ _ C2 A2 L2 E3)
    as (C3 & A3 & L3 & B3 & D3).
  simpl in D1. rewrite cos_0 in D1.
  destruct C3 as (_ & Hr & _ & Hn).
  unfold dist_to_center. rewrite Hr, Hn, L3.
  replace ((lat s3 - base_lat s3) ^ 2 + (base_lng s3 - base_lng s3) ^ 2)
    with ((lat s3 - base_lat s3) ^ 2) by ring.
  rewrite sqrt_pow2; lra.
Qed.

(** *** Calls with [dt = 0] *)

(** X1: on a freshly constructed model, one call [update(0)] leaves the
    angle at zero, the altitude at its constructed value and the vertical
    components at zero, and the position within half a noise amplitude, on
    each axis, of the circle point [(init_lat + radius, init_lng)]. *)
Theorem first_update_zero_on_fresh_model
    (init_lat init_lng init_alt u v : R) :
  is_sample u -> is_sample v ->
  exists s,
    update 0 u v (init init_lat init_lng init_alt) = Some s
    /\ angle s = 0
    /\ alt s = init_alt /\ vel_alt s = 0 /\ acc_alt s = 0
    /\ - (noise_amplitude s / 2) <= lat s - (init_lat + radius s)
       <= noise_amplitude s / 2
    /\ - (noise_amplitude s / 2) <= lng s - init_lng
       <= noise_amplitude s / 2.
Proof.
  intros Hu Hv. unfold is_sample in Hu, Hv.
  destruct (update_total 0 u v (init init_lat init_lng init_alt)) as [s E].
  exists s. split; [exact E |].
  assert (Ha : angle s = 0).
  { apply (update_zero_angle u v _ _) in E; [exact E |].
    simpl. pose proof two_PI_pos. lra. }
  destruct (update_inv _ _ _ _ _ E)
    as (_ & _ & (_ & _ & _ & F4 & _ & F6) & (El & Eg & Ealt) & (_ & _ & Eva)
        & (_ & _ & Eca) & _).
  rewrite Ha in El, Eg. simpl in El, Eg, Ealt, F4, F6.
  rewrite cos_0 in El. rewrite sin_0 in Eg.
  rewrite F4, F6, El, Eg.
  repeat split; try assumption; lra.
Qed.

Lemma first_update_zero_on_fresh_model_witness :
  exists s,
    update 0 0.25 0.75 (init 0 0 100) = Some s
    /\ angle s = 0
    /\ alt s = 100 /\ vel_alt s = 0 /\ acc_alt s = 0
    /\ - (noise_amplitude s / 2) <= lat s - (0 + radius s)
       <= noise_amplitude s / 2
    /\ - (noise_amplitude s / 2) <= lng s - 0 <= noise_amplitude s / 2.
Proof.
  apply (first_update_zero_on_fresh_model 0 0 100 0.25 0.75);
    unfold is_sample; lra.
Defined.

Lemma reachable_filter_state (s : t) : reachable s -> filter_state s.
Proof.
  intros Hs. destruct (reachable_configured s Hs) as (_ & _ & Hf & Ha).
  repeat split; try apply (reachable_angle s Hs); try exact Hf.
  rewrite Ha; lra.
Qed.

(** One call with [dt = 0]: the ideal point stays, and the offset of the
    position from it is 0.95 of the previous offset plus the noise. *)
Lemma update_zero_offset (u v : R) (s s' : t) :
  filter_state s ->
  update 0 u v s = Some s' ->
  filter_state s'
  /\ angle s' = angle s
  /\ noise_amplitude s' = noise_amplitude s
  /\ ideal_lat s' = ideal_lat s /\ ideal_lng s' = ideal_lng s
  /\ lat s' - ideal_lat s' =
       0.95 * (lat s - ideal_lat s) + (u - 0.5) * noise_amplitude s
  /\ lng s' - ideal_lng s' =
       0.95 * (lng s - ideal_lng s) + (v - 0.5) * noise_amplitude s.
Proof.
  intros (Hr & Hf & Ha) E.
  pose proof (update_zero_angle u v s s' Hr E) as Hang.
  destruct (update_inv _ _ _ _ _ E)
    as (_ & _ & (F1 & F2 & _ & F4 & F5 & F6) & (El & Eg & _) & _).
  unfold filter_state, ideal_lat, ideal_lng.
  rewrite F1, F2, F4, F5, F6, El, Eg, Hang, Hf.
  repeat split; try lra.
Qed.

Lemma sqrt_sum_sq_scale (c x y : R) :
  0 <= c ->
  sqrt ((c * x) ^ 2 + (c * y) ^ 2) = c * sqrt (x ^ 2 + y ^ 2).
Proof.
  intros Hc.
  replace ((c * x) ^ 2 + (c * y) ^ 2) with (c ^ 2 * (x ^ 2 + y ^ 2)) by ring.
  rewrite sqrt_mult_alt by apply pow2_ge_0.
  rewrite sqrt_pow2 by exact Hc. reflexivity.
Qed.

Lemma sum_sq_nonneg (x y : R) : 0 <= x ^ 2 + y ^ 2.
Proof. pose proof (pow2_ge_0 x); pose proof (pow2_ge_0 y); lra. Qed.

(** The triangle inequality of the plane, on distances, for a displacement
    bounded by [e] on each axis. *)
Lemma dist_triangle_axes (x y e1 e2 e : R) :
  - e <= e1 <= e -> - e <= e2 <= e ->
  sqrt ((x + e1) ^ 2 + (y + e2) ^ 2) <= sqrt (x ^ 2 + y ^ 2) + sqrt 2 * e.
Proof.
  intros H1 H2.
  assert (He : 0 <= e) by lra.
  assert (Hs2 : sqrt 2 ^ 2 = 2) by (apply pow2_sqrt; lra).
  assert (Hs2p : 0 <= sqrt 2) by apply sqrt_pos.
  assert (Hd : 0 <= sqrt (x ^ 2 + y ^ 2)) by apply sqrt_pos.
  assert (Hf : 0 <= sqrt 2 * e) by (apply Rmult_le_pos; assumption).
  apply sqrt_le_of_sq; [lra |].
  apply plane_triangle; try assumption.
  - rewrite pow2_sqrt by apply sum_sq_nonneg. lra.
  - replace ((sqrt 2 * e) ^ 2) with (sqrt 2 ^ 2 * e ^ 2) by ring.
    rewrite Hs2.
    assert (e1 ^ 2 <= e ^ 2) by nra.
    assert (e2 ^ 2 <= e ^ 2) by nra.
    lra.
Qed.

(** One call with [dt = 0] and draws in range brings the position to within
    0.95 of its previous distance to the ideal point, plus the reach of one
    noise sample. *)
Lemma update_zero_dist (u v : R) (s s' : t) :
  filter_state s -> is_sample u -> is_sample v ->
  update 0 u v s = Some s' ->
  dist_to_ideal s' <=
  0.95 * dist_to_ideal s + sqrt 2 * (noise_amplitude s / 2).
Proof.
  intros Hs Hu Hv E.
  destruct (update_zero_offset u v s s' Hs E)
    as (_ & _ & _ & _ & _ & El & Eg).
  destruct Hs as (_ & _ & Ha). unfold is_sample in Hu, Hv.
  unfold dist_to_ideal at 1. rewrite El, Eg.
  unfold dist_to_ideal.
  rewrite <- sqrt_sum_sq_scale by lra.
  apply dist_triangle_axes; nra.
Qed.

(** With no noise the distance is multiplied by 0.95, exactly. *)
Lemma update_zero_dist_exact (u v : R) (s s' : t) :
  filter_state s ->
  (u - 0.5) * noise_amplitude s = 0 -> (v - 0.5) * noise_amplitude s = 0 ->
  update 0 u v s = Some s' ->
  dist_to_ideal s' = 0.95 * dist_to_ideal s.
Proof.
  intros Hs Hu Hv E.
  destruct (update_zero_offset u v s s' Hs E)
    as (_ & _ & _ & _ & _ & El & Eg).
  unfold dist_to_ideal at 1. rewrite El, Eg, Hu, Hv, !Rplus_0_r.
  unfold dist_to_ideal. apply sqrt_sum_sq_scale. lra.
Qed.

(** Any number of calls with [dt = 0]: the angle stays, and the distance to
    the ideal point decays geometrically down to the accumulated noise. *)
Lemma run_frozen (draws : list (R * R)) (s s' : t) :
  filter_state s -> Forall valid_draws draws ->
  run (frozen_ticks draws) s = Some s' ->
  filter_state s'
  /\ angle s' = angle s
  /\ noise_amplitude s' = noise_amplitude s
  /\ dist_to_ideal s' <=
       0.95 ^ List.length draws * dist_to_ideal s
       + 10 * sqrt 2 * noise_amplitude s * (1 - 0.95 ^ List.length draws).
Proof.
  revert s. induction draws as [| [u v] ds IH]; intros s Hs Hv; simpl.
  - intros [= <-]. repeat split; try apply Hs; try lra.
  - inversion Hv as [| ? ? [Hu Hv'] Hds]; subst. simpl in Hu, Hv'.
    destruct (update 0 u v s) as [s1 |] eqn:E; [| discriminate].
    intros Hrun.
    destruct (update_zero_offset u v s s1 Hs E) as (Hs1 & A1 & N1 & _).
    pose proof (update_zero_dist u v s s1 Hs Hu Hv' E) as D1.
    destruct (IH s1 Hs1 Hds Hrun) as (Hs' & A' & N' & D').
    split; [exact Hs' |]. split; [congruence |]. split; [congruence |].
    rewrite N1 in D'.
    assert (Hp : 0 <= 0.95 ^ List.length ds) by (apply pow_le; lra).
    assert (Hm : 0.95 ^ List.length ds * dist_to_ideal s1 <=
                 0.95 ^ List.length ds
                 * (0.95 * dist_to_ideal s
                    + sqrt 2 * (noise_amplitude s / 2)))
      by (apply Rmult_le_compat_l; assumption).
    lra.
Qed.

(** C9: from every starting object with a wrapped angle, repeated
    [update(0)] calls keep the angle frozen and bring the position toward
    the ideal circle point at that angle, up to the injected noise: after
    [n] calls the distance to that point is at most [0.95 ^ n] times the
    initial one plus the accumulated noise, hence eventually within any
    margin of the noise band; and when the noise of a call is zero, that
    call multiplies the distance by exactly 0.95, a strict decrease unless
    the position is already the ideal point. *)
Theorem frozen_angle_contracts (s : t) :
  filter_state s ->
  (forall draws : list (R * R),
     Forall valid_draws draws ->
     exists s',
       run (frozen_ticks draws) s = Some s'
       /\ angle s' = angle s
       /\ dist_to_ideal s' <=
            0.95 ^ List.length draws * dist_to_ideal s
            + 10 * sqrt 2 * noise_amplitude s)
  /\ (forall eps : R,
        0 < eps ->
        exists N : nat,
          forall draws : list (R * R),
            Forall valid_draws draws ->
            (N <= List.length draws)%nat ->
            exists s',
              run (frozen_ticks draws) s = Some s'
              /\ dist_to_ideal s' <= 10 * sqrt 2 * noise_amplitude s + eps)
  /\ (forall u v : R,
        (u - 0.5) * noise_amplitude s = 0 ->
        (v - 0.5) * noise_amplitude s = 0 ->
        exists s',
          update 0 u v s = Some s'
          /\ angle s' = angle s
          /\ dist_to_ideal s' = 0.95 * dist_to_ideal s
          /\ (0 < dist_to_ideal s -> dist_to_ideal s' < dist_to_ideal s)).
Proof.
  intros Hs.
  assert (Hd0 : 0 <= dist_to_ideal s) by apply sqrt_pos.
  assert (Hs2 : 0 <= sqrt 2) by apply sqrt_pos.
  assert (Ha : 0 <= noise_amplitude s) by apply Hs.
  assert (Hbound : forall draws s',
            Forall valid_draws draws ->
            run (frozen_ticks draws) s = Some s' ->
            dist_to_ideal s' <=
            0.95 ^ List.length draws * dist_to_ideal s
            + 10 * sqrt 2 * noise_amplitude s).
  { intros draws s' Hv E.
    destruct (run_frozen draws s s' Hs Hv E) as (_ & _ & _ & D).
    assert (0 <= 0.95 ^ List.length draws) by (apply pow_le; lra).
    assert (0 <= 10 * sqrt 2 * noise_amplitude s * 0.95 ^ List.length draws).
    { repeat apply Rmult_le_pos; lra. }
    lra. }
  split; [| split].
  - intros draws Hv.
    destruct (run_total (frozen_ticks draws) s) as [s' E].
    exists s'. split; [exact E |].
    split; [apply (run_frozen draws s s' Hs Hv E) | auto].
  - intros eps Heps.
    assert (Hy : 0 < eps / (dist_to_ideal s + 1))
      by (apply Rdiv_lt_0_compat; lra).
    destruct (pow_lt_1_zero 0.95 ltac:(rewrite Rabs_pos_eq; lra) _ Hy)
      as [N HN].
    exists N. intros draws Hv Hlen.
    destruct (run_total (frozen_ticks draws) s) as [s' E].
    exists s'. split; [exact E |].
    pose proof (Hbound draws s' Hv E) as D.
    specialize (HN (List.length draws) Hlen).
    rewrite Rabs_pos_eq in HN by (apply pow_le; lra).
    assert (Hp : 0 <= 0.95 ^ List.length draws) by (apply pow_le; lra).
    assert (Hm : 0.95 ^ List.length draws * dist_to_ideal s <=
                 eps / (dist_to_ideal s + 1) * dist_to_ideal s)
      by (apply Rmult_le_compat_r; lra).
    assert (Hq : eps / (dist_to_ideal s + 1) * dist_to_ideal s <= eps).
    { replace eps with (eps / (dist_to_ideal s + 1) * (dist_to_ideal s + 1))
        at 2 by (field; lra).
      apply Rmult_le_compat_l; lra. }
    lra.
  - intros u v Hu Hv.
    destruct (update_total 0 u v s) as [s' E].
    exists s'. split; [exact E |].
    split; [apply (update_zero_angle u v s s'); [apply Hs | exact E] |].
    pose proof (update_zero_dist_exact u v s s' Hs Hu Hv E) as D.
    split; [exact D | lra].
Qed.

Lemma frozen_angle_contracts_witness :
  exists s1 s2 s3,
    update 0 0.9 0.5 (init 0 0 100) = Some s1
    /\ 0 < dist_to_ideal s1
    /\ (update 0 0.5 0.5 s1 = Some s2
        /\ angle s2 = angle s1
        /\ dist_to_ideal s2 = 0.95 * dist_to_ideal s1
        /\ dist_to_ideal s2 < dist_to_ideal s1)
    /\ (run (frozen_ticks [(0.9, 0.1); (0.2, 0.7); (0.6, 0.6)]) s1 = Some s3
        /\ angle s3 = angle s1
        /\ dist_to_ideal s3 <=
             0.95 ^ 3 * dist_to_ideal s1 + 10 * sqrt 2 * noise_amplitude s1).
Proof.
  destruct (update_total 0 0.9 0.5 (init 0 0 100)) as [s1 E1].
  destruct (update_frozen_at_zero _ _ (init_configured 0 0 100)
              eq_refl ltac:(simpl; rewrite sin_0; lra) E1)
    as ((_ & Hr & Hf & Hn) & A1 & L1 & _ & D1).
  simpl in D1. rewrite cos_0 in D1.
  assert (Hs : filter_state s1).
  { unfold filter_state. rewrite A1, Hf, Hn. pose proof two_PI_pos. lra. }
  assert (Hpos : 0 < dist_to_ideal s1).
  { unfold dist_to_ideal, ideal_lat, ideal_lng.
    rewrite A1, cos_0, sin_0, Hr, L1. apply sqrt_lt_R0.
    replace (lat s1 - (base_lat s1 + 0.0008 * 1))
      with (lat s1 - base_lat s1 - 0.0008) by lra.
    rewrite D1. nra. }
  destruct (frozen_angle_contracts s1 Hs) as (Hnoisy & _ & Hquiet).
  destruct (Hquiet 0.5 0.5) as (s2 & E2 & A2 & D2 & Hlt); [lra | lra |].
  destruct (Hnoisy [(0.9, 0.1); (0.2, 0.7); (0.6, 0.6)]) as (s3 & E3 & A3 & D3).
  { repeat constructor; simpl; lra. }
  exists s1, s2, s3. repeat split; auto.
Defined.

End PhysicsFacts.

(** ** Facts about the connection handler *)

Section HandlerFacts.
Import Handler.

Local Open Scope string_scope.
Local Open Scope list_scope.

Lemma welcome_is_info (self : DroneSimulator) : is_info (welcome_msg self).
Proof. reflexivity. Qed.

Lemma gps_update_is_gps (self : DroneSimulator) (p : DronePhysics.t)
    (timestamp : string) :
  is_gps (gps_update self p timestamp).
Proof. reflexivity. Qed.

Lemma gps_not_info (frame : json) : is_gps frame -> has_type "info" frame = false.
Proof.
  unfold is_gps, has_type.
  destruct (frame_type frame) as [[s | x | items] |]; try discriminate.
  intros H. apply String.eqb_eq in H. subst s. reflexivity.
Qed.

Lemma gps_not_error (frame : json) :
  is_gps frame -> has_type "error" frame = false.
Proof.
  unfold is_gps, has_type.
  destruct (frame_type frame) as [[s | x | items] |]; try discriminate.
  intros H. apply String.eqb_eq in H. subst s. reflexivity.
Qed.

Lemma accept_sent_shape (self : DroneSimulator) : sent_shape self (accept self).
Proof. reflexivity. Qed.

Lemma step_sent_shape (self : DroneSimulator) (st st' : state) (ev : event) :
  sent_shape self st -> step self st ev = Some st' -> sent_shape self st'.
Proof.
  unfold sent_shape, step; cbv zeta.
  destruct (ctl st) as [| last_time loop handler |] eqn:Ec; intros Hs.
  - destruct ev as [outcome now | | | |]; try discriminate.
    destruct outcome; intros [= <-]; simpl; rewrite Hs; simpl; eauto 6.
  - destruct Hs as (calls & Hsent & Hgps).
    assert (Hsnoc : forall p timestamp outcome,
               Forall (fun c => is_gps (fst c))
                 (calls ++ [(gps_update self p timestamp, outcome)])).
    { intros. apply Forall_app. split; [exact Hgps |].
      constructor; [apply gps_update_is_gps | constructor]. }
    destruct ev as [| now u v timestamp outcome | message outcome | cause |].
    + discriminate.
    + destruct loop; [| discriminate].
      destruct (DronePhysics.update _ _ _ _) as [p |].
      * destruct outcome; intros [= <-]; simpl; rewrite Hsent; simpl; eauto.
      * intros [= <-]; simpl; eauto.
    + destruct handler; [| discriminate].
      destruct outcome; intros [= <-]; simpl; eauto.
    + destruct handler; [| discriminate]. intros [= <-]; simpl; eauto.
    + destruct loop, handler; try discriminate. intros [= <-]; simpl; eauto 6.
  - discriminate.
Qed.

Lemma run_events_invariant (self : DroneSimulator) (P : state -> Prop) :
  (forall st st' ev, P st -> step self st ev = Some st' -> P st') ->
  forall evs st st', P st -> handle_client self evs st = Some st' -> P st'.
Proof.
  intros Hstep. induction evs as [| ev evs IH]; intros st st' HP; simpl.
  - intros [= <-]. exact HP.
  - destruct (step self st ev) as [st1 |] eqn:E; [| discriminate].
    apply IH. eapply Hstep; eauto.
Qed.

Lemma run_events_sent_shape (self : DroneSimulator) (evs : list event)
    (st : state) :
  handle_client self evs (accept self) = Some st -> sent_shape self st.
Proof.
  apply (run_events_invariant self (sent_shape self)
           (step_sent_shape self) evs (accept self) st).
  apply accept_sent_shape.
Qed.

Lemma run_events_app (self : DroneSimulator) (evs1 evs2 : list event)
    (st : state) :
  handle_client self (evs1 ++ evs2) st =
  match handle_client self evs1 st with
  | None => None
  | Some st1 => handle_client self evs2 st1
  end.
Proof.
  revert st. induction evs1 as [| ev evs1 IH]; intros st; simpl.
  - reflexivity.
  - destruct (step self st ev); [apply IH | reflexivity].
Qed.

(** One iteration of the physics loop whose send succeeds: the model is
    updated, a telemetry frame is handed to [websocket.send], and the loop
    goes on. *)
Lemma step_tick_ok (self : DroneSimulator) (st : state)
    (last_time : R) (handler : activity)
    (now u v : R) (timestamp : string) :
  ctl st = Gathering last_time Running handler ->
  exists physics',
    DronePhysics.update (now - last_time) u v (drone_physics st)
    = Some physics'
    /\ step self st (EvTick now u v timestamp SendOk) =
       Some {| drone_physics := physics';
               ctl := Gathering now Running handler;
               sent := sent st
                       ++ [(gps_update self physics' timestamp, SendOk)];
               log := log st |}.
Proof.
  intros Hc.
  destruct (update_total (now - last_time) u v (drone_physics st))
    as [p E].
  exists p. split; [exact E |].
  unfold step. rewrite Hc. cbv zeta. rewrite E. reflexivity.
Qed.

Lemma filter_info_gps (calls : list (json * send_outcome)) :
  Forall (fun c => is_gps (fst c)) calls ->
  filter (has_type "info") (map fst calls) = [].
Proof.
  induction 1 as [| c calls Hc _ IH]; simpl; [reflexivity |].
  rewrite (gps_not_info _ Hc). exact IH.
Qed.

Lemma Forall_gps_fst (calls : list (json * send_outcome)) :
  Forall (fun c => is_gps (fst c)) calls -> Forall is_gps (map fst calls).
Proof. intros H. apply Forall_map. exact H. Qed.

Lemma Forall_gps_delivered (calls : list (json * send_outcome)) :
  Forall (fun c => is_gps (fst c)) calls ->
  Forall is_gps
    (map fst
       (filter (fun c => match snd c with SendOk => true | _ => false end)
          calls)).
Proof.
  intros H. apply Forall_map.
  rewrite Forall_forall in *. intros c Hin.
  apply filter_In in Hin. apply H, Hin.
Qed.

(** C6: the first action of the handler hands the info frame, which
    announces the connection and carries the drone identifier, to
    [websocket.send]; at every later point of every run the frames handed to
    [websocket.send] are that one info frame followed by gps frames only,
    so exactly one of them is an info frame; and the frames whose send
    succeeded are none or, again, the info frame followed by gps frames. *)
Theorem welcome_first_then_telemetry
    (self : DroneSimulator) (evs : list event) (st : state) :
  handle_client self evs (accept self) = Some st ->
  (is_info (welcome_msg self)
   /\ field "message" (welcome_msg self)
      = Some (JString "Connected to drone simulator")
   /\ field "drone_id" (welcome_msg self) = Some (JString (drone_id self)))
  /\ (forall outcome now,
        exists st1,
          step self (accept self) (EvWelcome outcome now) = Some st1
          /\ frames st1 = [welcome_msg self])
  /\ ((ctl st = Welcoming /\ frames st = [])
      \/ (ctl st <> Welcoming
          /\ (exists telemetry,
                frames st = welcome_msg self :: telemetry
                /\ Forall is_gps telemetry)
          /\ List.length (filter (has_type "info") (frames st)) = 1%nat
          /\ (delivered st = []
              \/ exists telemetry,
                   delivered st = welcome_msg self :: telemetry
                   /\ Forall is_gps telemetry))).
Proof.
  intros Hrun.
  split; [repeat split |].
  split.
  { intros outcome now. unfold step. simpl.
    destruct outcome; eexists; split; reflexivity. }
  pose proof (run_events_sent_shape self evs st Hrun) as Hs.
  unfold sent_shape in Hs. unfold frames, delivered.
  destruct (ctl st) as [| last_time loop handler |] eqn:Ec.
  - left. rewrite Hs. auto.
  - right. destruct Hs as (calls & -> & Hgps).
    split; [discriminate |]. simpl.
    split; [eauto using Forall_gps_fst |].
    split; [rewrite (filter_info_gps calls Hgps); reflexivity |].
    right. eauto using Forall_gps_delivered.
  - right. destruct Hs as (outcome & calls & -> & Hgps & Ho).
    split; [discriminate |]. simpl.
    split; [eauto using Forall_gps_fst |].
    split; [rewrite (filter_info_gps calls Hgps); reflexivity |].
    destruct outcome; simpl.
    + right. eauto using Forall_gps_delivered.
    + left. destruct Ho as [Ho | ->]; [discriminate | reflexivity].
    + left. destruct Ho as [Ho | ->]; [discriminate | reflexivity].
Qed.

Lemma welcome_first_then_telemetry_witness :
  let self := simulator_init 9002 "drone-sim-1" in
  exists st,
    handle_client self
      [EvWelcome SendOk 0;
       EvTick 0.01 0.5 0.5 "2024-01-01T00:00:00+00:00" SendOk]
      (accept self) = Some st
    /\ List.length (filter (has_type "info") (frames st)) = 1%nat.
Proof.
  intros self.
  set (evs := [EvWelcome SendOk 0;
               EvTick 0.01 0.5 0.5 "2024-01-01T00:00:00+00:00" SendOk]).
  assert (Hrun : exists st, handle_client self evs (accept self) = Some st).
  { unfold evs, handle_client.
    change (step self (accept self) (EvWelcome SendOk 0))
      with (Some {| drone_physics := drone_physics (accept self);
                    ctl := Gathering 0 Running Running;
                    sent := [(welcome_msg self, SendOk)];
                    log := [LogIncoming; LogEstablished] |}).
    cbv iota beta.
    match goal with
    | |- context [step self ?st1 (EvTick ?now ?u ?v ?ts SendOk)] =>
        destruct (step_tick_ok self st1 0 Running now u v ts eq_refl)
          as (p & _ & ->)
    end.
    eauto. }
  destruct Hrun as [st Hrun]. exists st. split; [exact Hrun |].
  destruct (welcome_first_then_telemetry self evs st Hrun)
    as (_ & _ & [[Hc Hf] | (_ & _ & Hone & _)]).
  - exfalso.
    pose proof (run_events_sent_shape self evs st Hrun) as Hs.
    unfold sent_shape in Hs. rewrite Hc in Hs.
    unfold evs, handle_client in Hrun.
    change (step self (accept self) (EvWelcome SendOk 0))
      with (Some {| drone_physics := drone_physics (accept self);
                    ctl := Gathering 0 Running Running;
                    sent := [(welcome_msg self, SendOk)];
                    log := [LogIncoming; LogEstablished] |}) in Hrun.
    cbv iota beta in Hrun.
    match type of Hrun with
    | context [step self ?st1 (EvTick ?now ?u ?v ?ts SendOk)] =>
        destruct (step_tick_ok self st1 0 Running now u v ts eq_refl)
          as (p & _ & Es)
    end.
    rewrite Es in Hrun. injection Hrun as <-. discriminate.
  - exact Hone.
Defined.

(** No call of [websocket.send] is ever given a frame of type ["error"]. *)
Lemma sent_shape_no_error (self : DroneSimulator) (st : state) :
  sent_shape self st ->
  Forall (fun frame => has_type "error" frame = false) (frames st).
Proof.
  assert (Hg : forall calls : list (json * send_outcome),
             Forall (fun c => is_gps (fst c)) calls ->
             Forall (fun frame => has_type "error" frame = false)
               (map fst calls)).
  { intros calls H. apply Forall_map.
    rewrite Forall_forall in *. intros c Hin. apply gps_not_error, H, Hin. }
  unfold sent_shape, frames.
  destruct (ctl st).
  - intros ->. constructor.
  - intros (calls & -> & Hgps). simpl. constructor; [reflexivity | auto].
  - intros (outcome & calls & -> & Hgps & _). simpl.
    constructor; [reflexivity | auto].
Qed.

(** Chains one event of a schedule into the run: a physics-loop iteration
    whose send succeeds through [step_tick_ok], any other event by
    evaluating [step]. *)
Ltac take_event :=
  match goal with
  | |- context [step ?self ?st (EvTick ?now ?u ?v ?ts SendOk)] =>
      let p := fresh "p" in
      destruct (step_tick_ok self st _ _ now u v ts eq_refl) as (p & _ & ->);
      cbv iota beta
  | |- context [step ?self ?st ?ev] =>
      let r :=
        eval cbv beta iota zeta delta
               [step accept ctl sent log drone_physics]
        in (step self st ev) in
      change (step self st ev) with r; cbv iota beta
  end.

(** C7: when the message handler, while it is receiving, is delivered a
    text frame that [json.loads] fails to parse, whether it raises
    [JSONDecodeError] (malformed text) or another exception
    ([RecursionError] on text nested too deep, [ValueError] on an integer
    literal over the digit limit), the handler takes the event, logs one
    diagnostic line ("Invalid JSON received" for the first, "Error handling
    messages" for the others) and drops the frame: nothing is sent, the
    model is untouched, the handler keeps awaiting [asyncio.gather] with the
    physics loop as it was, so the connection stays open; if the physics
    loop was running, its next iteration whose send succeeds still sends a
    gps frame; and at no later point of the run has a frame of type
    ["error"] been handed to [websocket.send].  After [JSONDecodeError] the
    message handler goes on receiving; after another exception it has
    ended. *)
Theorem unparsable_text_is_logged_and_dropped
    (self : DroneSimulator) (evs : list event) (st : state)
    (last_time : R) (loop : activity) (text : string)
    (outcome : loads_outcome) :
  handle_client self evs (accept self) = Some st ->
  ctl st = Gathering last_time loop Running ->
  outcome <> Loaded ->
  exists st' handler',
    step self st (EvMessage (TextFrame text) outcome) = Some st'
    /\ log st' =
       log st ++ [match outcome with
                  | RaisesJSONDecodeError => LogInvalidJSON (TextFrame text)
                  | _ => LogMessagesError
                  end]
    /\ sent st' = sent st
    /\ drone_physics st' = drone_physics st
    /\ ctl st' = Gathering last_time loop handler'
    /\ handler' = match outcome with
                  | RaisesJSONDecodeError => Running
                  | _ => Done
                  end
    /\ (loop = Running ->
        forall now u v timestamp,
          exists st'' frame,
            step self st' (EvTick now u v timestamp SendOk) = Some st''
            /\ sent st'' = sent st' ++ [(frame, SendOk)]
            /\ is_gps frame
            /\ ctl st'' = Gathering now Running handler')
    /\ (forall evs' st'',
          handle_client self evs' st' = Some st'' ->
          Forall (fun frame => has_type "error" frame = false) (frames st'')).
Proof.
  intros Hrun Hc Hout.
  assert (Hstep : exists st',
             step self st (EvMessage (TextFrame text) outcome) = Some st'
             /\ log st' =
                log st ++ [match outcome with
                           | RaisesJSONDecodeError =>
                               LogInvalidJSON (TextFrame text)
                           | _ => LogMessagesError
                           end]
             /\ sent st' = sent st
             /\ drone_physics st' = drone_physics st
             /\ ctl st' =
                Gathering last_time loop
                  match outcome with
                  | RaisesJSONDecodeError => Running
                  | _ => Done
                  end).
  { unfold step. rewrite Hc.
    destruct outcome; [contradiction | |]; eexists;
      (split; [reflexivity | simpl; auto]). }
  destruct Hstep as (st' & Es & Hlog & Hsent & Hphys & Hctl).
  exists st'. eexists. split; [exact Es |].
  split; [exact Hlog |]. split; [exact Hsent |]. split; [exact Hphys |].
  split; [exact Hctl |]. split; [reflexivity |]. split.
  - intros -> now u v timestamp.
    destruct (step_tick_ok self st' last_time _ now u v timestamp Hctl)
      as (p & _ & ->).
    do 2 eexists. split; [reflexivity |]. simpl.
    split; [reflexivity |]. split; [apply gps_update_is_gps | reflexivity].
  - intros evs' st'' Hrun'.
    apply (sent_shape_no_error self).
    apply (run_events_sent_shape self
             (evs ++ EvMessage (TextFrame text) outcome :: evs')).
    rewrite run_events_app, Hrun. simpl. rewrite Es. exact Hrun'.
Qed.

Lemma unparsable_text_is_logged_and_dropped_witness :
  let self := simulator_init 9002 "drone-sim-1" in
  let deep := String.concat "" (repeat "[" 2000) in
  exists st st1 st2,
    handle_client self
      [EvWelcome SendOk 0;
       EvTick 0.01 0.25 0.75 "2024-01-01T00:00:00.010000+00:00" SendOk]
      (accept self) = Some st
    /\ (step self st (EvMessage (TextFrame "not json") RaisesJSONDecodeError)
        = Some st1
        /\ log st1 = log st ++ [LogInvalidJSON (TextFrame "not json")]
        /\ sent st1 = sent st
        /\ ctl st1 = Gathering 0.01 Running Running)
    /\ (step self st (EvMessage (TextFrame deep) RaisesException) = Some st2
        /\ log st2 = log st ++ [LogMessagesError]
        /\ sent st2 = sent st
        /\ ctl st2 = Gathering 0.01 Running Done
        /\ forall now u v timestamp,
             exists st3 frame,
               step self st2 (EvTick now u v timestamp SendOk) = Some st3
               /\ sent st3 = sent st2 ++ [(frame, SendOk)]
               /\ is_gps frame).
Proof.
  intros self deep.
  set (evs := [EvWelcome SendOk 0;
               EvTick 0.01 0.25 0.75 "2024-01-01T00:00:00.010000+00:00"
                 SendOk]).
  assert (Hrun : exists st,
             handle_client self evs (accept self) = Some st
             /\ ctl st = Gathering 0.01 Running Running).
  { unfold evs, handle_client. do 2 take_event. eauto. }
  destruct Hrun as (st & Hrun & Hc). exists st.
  destruct (unparsable_text_is_logged_and_dropped self evs st 0.01 Running
              "not json" RaisesJSONDecodeError Hrun Hc ltac:(discriminate))
    as (st1 & h1 & E1 & L1 & S1 & _ & C1 & -> & _).
  destruct (unparsable_text_is_logged_and_dropped self evs st 0.01 Running
              deep RaisesException Hrun Hc ltac:(discriminate))
    as (st2 & h2 & E2 & L2 & S2 & _ & C2 & -> & T2 & _).
  exists st1, st2. split; [exact Hrun |]. split; [auto |].
  split; [exact E2 |]. split; [exact L2 |]. split; [exact S2 |].
  split; [exact C2 |].
  intros now u v timestamp.
  destruct (T2 eq_refl now u v timestamp) as (st3 & frame & E3 & S3 & G3 & _).
  eauto.
Defined.

(** C2, as amended: [asyncio.gather] waits and cancels nothing.  The
    handler returns, and with it the trajectory model is released, only when
    both coroutines are done (or when the welcome send failed and neither
    was started); a running physics loop stays running through every event
    but an iteration of its own whose send fails, and a running message
    handler through every event but the end of its own receive loop or an
    exception other than [JSONDecodeError] in its own body. *)
Theorem gather_waits_and_never_cancels
    (self : DroneSimulator) (st st' : state) (ev : event) :
  step self st ev = Some st' ->
  (ctl st' = Returned ->
   ctl st = Welcoming \/ exists last_time, ctl st = Gathering last_time Done Done)
  /\ (physics_loop_of (ctl st) = Some Running ->
      physics_loop_of (ctl st') = Some Running
      \/ exists now u v timestamp outcome,
           ev = EvTick now u v timestamp outcome /\ outcome <> SendOk)
  /\ (message_handler_of (ctl st) = Some Running ->
      message_handler_of (ctl st') = Some Running
      \/ (exists message, ev = EvMessage message RaisesException)
      \/ (exists cause, ev = EvReceiveEnd cause)).
Proof.
  unfold step; cbv zeta.
  destruct (ctl st) as [| last_time loop handler |] eqn:Ec.
  - destruct ev as [outcome now | | | |]; try discriminate.
    destruct outcome; intros [= <-]; simpl;
      (split; [auto | split; discriminate]).
  - destruct ev as [| now u v timestamp outcome | message outcome | cause |].
    + discriminate.
    + destruct loop; [| discriminate].
      destruct (update_total (now - last_time) u v (drone_physics st))
        as [p ->].
      destruct outcome; intros [= <-]; simpl;
        (split; [discriminate |]);
        (split; [| auto]); intros _;
        solve [ auto | right; do 5 eexists; split; [reflexivity | discriminate] ].
    + destruct handler; [| discriminate].
      destruct outcome; intros [= <-]; simpl;
        (split; [discriminate |]); (split; [auto |]); intros _; eauto.
    + destruct handler; [| discriminate].
      intros [= <-]; simpl.
      split; [discriminate |]. split; [auto |]. intros _; eauto.
    + destruct loop, handler; try discriminate.
      intros [= <-]; simpl.
      split; [eauto |]. split; discriminate.
  - discriminate.
Qed.

Lemma gather_waits_and_never_cancels_witness :
  let self := simulator_init 9002 "drone-sim-1" in
  let st := {| drone_physics := drone_physics (accept self);
               ctl := Gathering 0 Running Running;
               sent := [(welcome_msg self, SendOk)];
               log := [LogIncoming; LogEstablished] |} in
  let st' := {| drone_physics := drone_physics (accept self);
                ctl := Gathering 0 Running Done;
                sent := [(welcome_msg self, SendOk)];
                log := [LogIncoming; LogEstablished; LogMessagesError] |} in
  step self st (EvReceiveEnd ReceiveException) = Some st'
  /\ physics_loop_of (ctl st') = Some Running.
Proof.
  intros self st st'. split; [reflexivity |].
  destruct (gather_waits_and_never_cancels self st st'
              (EvReceiveEnd ReceiveException) eq_refl)
    as (_ & [H | (now & u & v & timestamp & outcome & H & _)] & _).
  - reflexivity.
  - exact H.
  - discriminate H.
Defined.

(** C2, as stated, fails: after the message handler has ended on an
    exception ([json.loads] on a binary frame that is not UTF-8 raises
    [UnicodeDecodeError], which [except json.JSONDecodeError] lets through),
    the physics loop is not cancelled: three iterations later it is still
    running, has sent three more frames, and the handler has not returned. *)
Lemma physics_loop_not_cancelled_counterexample :
  let self := simulator_init 9002 "drone-sim-1" in
  exists st frame1 frame2 frame3,
    handle_client self
      [EvWelcome SendOk 0;
       EvMessage (BinaryFrame [Byte.xff]) RaisesException;
       EvTick 0.01 0.5 0.5 "2024-01-01T00:00:00.010000+00:00" SendOk;
       EvTick 0.02 0.5 0.5 "2024-01-01T00:00:00.020000+00:00" SendOk;
       EvTick 0.03 0.5 0.5 "2024-01-01T00:00:00.030000+00:00" SendOk]
      (accept self) = Some st
    /\ ctl st = Gathering 0.03 Running Done
    /\ frames st = [welcome_msg self; frame1; frame2; frame3]
    /\ is_gps frame1 /\ is_gps frame2 /\ is_gps frame3.
Proof.
  intros self. unfold handle_client.
  change (step self (accept self) (EvWelcome SendOk 0))
    with (Some {| drone_physics := drone_physics (accept self);
                  ctl := Gathering 0 Running Running;
                  sent := [(welcome_msg self, SendOk)];
                  log := [LogIncoming; LogEstablished] |}).
  cbv iota beta.
  match goal with
  | |- context [step self ?st1 (EvMessage ?m RaisesException)] =>
      change (step self st1 (EvMessage m RaisesException))
        with (Some {| drone_physics := drone_physics (accept self);
                      ctl := Gathering 0 Running Done;
                      sent := [(welcome_msg self, SendOk)];
                      log := [LogIncoming; LogEstablished;
                              LogMessagesError] |})
  end.
  cbv iota beta.
  match goal with
  | |- context [step self ?st1 (EvTick ?now ?u ?v ?ts SendOk)] =>
      destruct (step_tick_ok self st1 0 Done now u v ts eq_refl)
        as (p1 & _ & ->)
  end.
  match goal with
  | |- context [step self ?st1 (EvTick ?now ?u ?v ?ts SendOk)] =>
      destruct (step_tick_ok self st1 0.01 Done now u v ts eq_refl)
        as (p2 & _ & ->)
  end.
  match goal with
  | |- context [step self ?st1 (EvTick ?now ?u ?v ?ts SendOk)] =>
      destruct (step_tick_ok self st1 0.02 Done now u v ts eq_refl)
        as (p3 & _ & ->)
  end.
  do 4 eexists. split; [reflexivity |]. simpl.
  split; [reflexivity |]. split; [reflexivity |].
  repeat split; apply gps_update_is_gps.
Qed.

End HandlerFacts.

(** ** Further facts about the trajectory model *)

Section PhysicsKinematics.
Import DronePhysics.

Lemma run_invariant (P : t -> Prop) :
  (forall dt u v s s', P s -> update dt u v s = Some s' -> P s') ->
  forall ks s s', P s -> run ks s = Some s' -> P s'.
Proof.
  intros Hstep. induction ks as [| k ks IH]; intros s s' HP; simpl.
  - intros [= <-]. exact HP.
  - destruct (update _ _ _ s) as [s1 |] eqn:E; [| discriminate].
    apply IH. eapply Hstep; eauto.
Qed.

(** *** Bounds on velocity and acceleration *)

Lemma init_kinematic_bounds (a b c : R) : kinematic_bounds (init a b c).
Proof.
  unfold kinematic_bounds. simpl. rewrite cos_0, sin_0. split; nra.
Qed.

Lemma update_kinematic_bounds (dt u v : R) (s s' : t) :
  configured s -> kinematic_bounds s ->
  update dt u v s = Some s' -> kinematic_bounds s'.
Proof.
  intros (Hw & Hr & Hf & _) (Hv & Ha) E.
  destruct (update_inv _ _ _ _ _ E)
    as (_ & _ & (_ & _ & F3 & F4 & _) & _ & (Evl & Evg & _)
        & (Eal & Eag & _) & _).
  pose proof (cos_sin_unit (angle s')) as Hcs.
  unfold kinematic_bounds.
  rewrite F3, F4, Evl, Evg, Eal, Eag. rewrite Hw, Hr, Hf in *.
  assert (Hcs' : (- sin (angle s')) ^ 2 + cos (angle s') ^ 2 = 1) by nra.
  assert (Hcs'' : (- cos (angle s')) ^ 2 + (- sin (angle s')) ^ 2 = 1) by nra.
  split.
  - pose proof (disc_blend (vel_lat s) (vel_lng s)
                  (- sin (angle s')) (cos (angle s')) (0.0008 * 0.15)
                  ltac:(lra) Hv Hcs') as H.
    eapply Rle_trans; [| exact H]. right. f_equal; f_equal; lra.
  - pose proof (disc_blend (acc_lat s) (acc_lng s)
                  (- cos (angle s')) (- sin (angle s')) (0.0008 * 0.15 ^ 2)
                  ltac:(lra) Ha Hcs'') as H.
    eapply Rle_trans; [| exact H]. right. f_equal; f_equal; lra.
Qed.

Lemma run_kinematic_bounds (ks : list tick) (s s' : t) :
  configured s -> kinematic_bounds s ->
  run ks s = Some s' -> configured s' /\ kinematic_bounds s'.
Proof.
  intros Hc Hk.
  apply (run_invariant (fun s => configured s /\ kinematic_bounds s));
    [| auto].
  intros dt u v s0 s1 [H0 H1] E.
  split; [eapply update_configured | eapply update_kinematic_bounds]; eauto.
Qed.

(** X5: from a freshly constructed model, after any sequence of [update]
    calls, whatever the [dt] values and the draws, the stored velocity is at
    most [radius * angular_speed] in magnitude and the stored acceleration
    at most [radius * angular_speed ^ 2]: the smoothing never overshoots the
    circular motion it tracks. *)
Theorem velocity_acceleration_bounded
    (init_lat init_lng init_alt : R) (ks : list tick) :
  exists s,
    run ks (init init_lat init_lng init_alt) = Some s
    /\ sqrt (vel_lat s ^ 2 + vel_lng s ^ 2) <= radius s * angular_speed s
    /\ sqrt (acc_lat s ^ 2 + acc_lng s ^ 2)
       <= radius s * angular_speed s ^ 2.
Proof.
  destruct (run_total ks (init init_lat init_lng init_alt)) as [s E].
  exists s. split; [exact E |].
  destruct (run_kinematic_bounds ks _ s (init_configured _ _ _)
              (init_kinematic_bounds _ _ _) E)
    as ((Hw & Hr & _) & Hv & Ha).
  split; apply sqrt_le_of_sq; try assumption; rewrite Hw, Hr; lra.
Qed.

(** *** Velocity and acceleration against the position *)

Lemma init_derivatives_track (a b c e : R) :
  0 <= e -> derivatives_track e (init a b c).
Proof.
  intros He. unfold derivatives_track. simpl. rewrite cos_0, sin_0.
  repeat split; nra.
Qed.

(** One call keeps the derivatives tracking when the slack can absorb the
    noise of the call. *)
Lemma update_derivatives_track (dt u v e : R) (s s' : t) :
  configured s ->
  - (0.05 * e) <= (u - 0.5) * noise_amplitude s <= 0.05 * e ->
  - (0.05 * e) <= (v - 0.5) * noise_amplitude s <= 0.05 * e ->
  derivatives_track e s ->
  update dt u v s = Some s' -> derivatives_track e s'.
Proof.
  intros (Hw & Hr & Hf & Ha) Hu Hv ((T1 & T2) & (T3 & T4)) E.
  destruct (update_inv _ _ _ _ _ E)
    as (_ & _ & (F1 & F2 & F3 & _) & (El & Eg & _) & (Evl & Evg & _)
        & (Eal & Eag & _) & _).
  unfold derivatives_track in *. cbv zeta in *.
  rewrite F1, F2, F3, El, Eg, Evl, Evg, Eal, Eag.
  rewrite Hw, Hr, Hf in *.
  set (n1 := (u - 0.5) * noise_amplitude s) in *.
  set (n2 := (v - 0.5) * noise_amplitude s) in *.
  repeat split; lra.
Qed.

(** X6: in every state of the model (valid calls on a fresh model), the
    stored velocity and acceleration are those of a rotation of the stored
    position about the centre, up to the noise the position carries: on
    each axis, velocity differs from [angular_speed] times the quarter-turned
    offset by at most [angular_speed * 10 * noise_amplitude], and
    acceleration from minus [angular_speed ^ 2] times the offset by at most
    [angular_speed ^ 2 * 10 * noise_amplitude]. *)
Theorem derivatives_consistent_with_position (s : t) :
  reachable s -> derivatives_track (10 * noise_amplitude s) s.
Proof.
  induction 1 as [a b c | k s s' Hs IH (_ & Hu & Hv) E].
  - apply init_derivatives_track. simpl. lra.
  - pose proof (reachable_configured s Hs) as Hc.
    destruct (update_inv _ _ _ _ _ E) as (_ & _ & (_ & _ & _ & _ & _ & F6) & _).
    rewrite F6.
    apply (update_derivatives_track (tick_dt k) (tick_rnd_lat k)
             (tick_rnd_lng k) (10 * noise_amplitude s) s s' Hc);
      try assumption;
      destruct Hc as (_ & _ & _ & Ha); rewrite Ha;
      unfold is_sample in Hu, Hv; lra.
Qed.

Lemma derivatives_consistent_with_position_witness :
  exists s,
    run [mk_tick 1 0.9 0.1; mk_tick 2 0.2 0.7; mk_tick 0.01 0.6 0.6]
        (init 0 0 100) = Some s
    /\ derivatives_track (10 * noise_amplitude s) s.
Proof.
  destruct (run_reachable 0 0 100
              [mk_tick 1 0.9 0.1; mk_tick 2 0.2 0.7; mk_tick 0.01 0.6 0.6])
    as (s & E & Hs).
  { repeat constructor; simpl; lra. }
  exists s. split; [exact E |].
  apply (derivatives_consistent_with_position s Hs).
Defined.

(** *** Change per call *)

Lemma reachable_kinematic_bounds (s : t) :
  reachable s -> kinematic_bounds s.
Proof.
  induction 1 as [a b c | k s s' Hs IH _ E].
  - apply init_kinematic_bounds.
  - eapply update_kinematic_bounds; eauto using reachable_configured.
Qed.

Lemma sq_le_bound (x r : R) : 0 <= r -> x ^ 2 <= r ^ 2 -> - r <= x <= r.
Proof. intros Hr Hx. split; nra. Qed.

(** X7: in every state of the model, one more call moves each attribute by
    a bounded amount whatever [dt] is: each position axis by at most
    [0.1 * radius + noise_amplitude], each velocity axis by at most
    [0.1 * radius * angular_speed] and each acceleration axis by at most
    [0.1 * radius * angular_speed ^ 2].  The position never jumps to the
    ideal point of the new angle. *)
Theorem change_per_call_bounded (s : t) (dt u v : R) :
  reachable s -> is_sample u -> is_sample v ->
  exists s',
    update dt u v s = Some s'
    /\ (Rabs (lat s' - lat s) <= 0.1 * radius s + noise_amplitude s
        /\ Rabs (lng s' - lng s) <= 0.1 * radius s + noise_amplitude s)
    /\ (Rabs (vel_lat s' - vel_lat s) <= 0.1 * (radius s * angular_speed s)
        /\ Rabs (vel_lng s' - vel_lng s)
           <= 0.1 * (radius s * angular_speed s))
    /\ (Rabs (acc_lat s' - acc_lat s)
        <= 0.1 * (radius s * angular_speed s ^ 2)
        /\ Rabs (acc_lng s' - acc_lng s)
           <= 0.1 * (radius s * angular_speed s ^ 2)).
Proof.
  intros Hs Hu Hv. unfold is_sample in Hu, Hv.
  destruct (update_total dt u v s) as [s' E]. exists s'.
  split; [exact E |].
  destruct (reachable_configured s Hs) as (Hw & Hr & Hf & Ha).
  destruct (reachable_near_disc s Hs) as (p & q & Hd & Hp & Hq).
  destruct (reachable_kinematic_bounds s Hs) as (Hvel & Hacc).
  destruct (update_inv _ _ _ _ _ E)
    as (_ & _ & _ & (El & Eg & _) & (Evl & Evg & _) & (Eal & Eag & _) & _).
  pose proof (COS_bound (angle s')) as Hcos.
  pose proof (SIN_bound (angle s')) as Hsin.
  rewrite El, Eg, Evl, Evg, Eal, Eag. rewrite Hw, Hr, Hf, Ha in *.
  assert (Hpb : - (0.0008) <= p - base_lat s <= 0.0008).
  { apply sq_le_bound; [lra |].
    pose proof (pow2_ge_0 (q - base_lng s)). lra. }
  assert (Hqb : - (0.0008) <= q - base_lng s <= 0.0008).
  { apply sq_le_bound; [lra |].
    pose proof (pow2_ge_0 (p - base_lat s)). lra. }
  assert (Hvl : - (0.0008 * 0.15) <= vel_lat s <= 0.0008 * 0.15).
  { apply sq_le_bound; [lra |]. pose proof (pow2_ge_0 (vel_lng s)). lra. }
  assert (Hvg : - (0.0008 * 0.15) <= vel_lng s <= 0.0008 * 0.15).
  { apply sq_le_bound; [lra |]. pose proof (pow2_ge_0 (vel_lat s)). lra. }
  assert (Hal : - (0.0008 * 0.15 ^ 2) <= acc_lat s <= 0.0008 * 0.15 ^ 2).
  { apply sq_le_bound; [lra |]. pose proof (pow2_ge_0 (acc_lng s)). lra. }
  assert (Hag : - (0.0008 * 0.15 ^ 2) <= acc_lng s <= 0.0008 * 0.15 ^ 2).
  { apply sq_le_bound; [lra |]. pose proof (pow2_ge_0 (acc_lat s)). lra. }
  repeat split; apply Rabs_le; lra.
Qed.

Lemma change_per_call_bounded_witness :
  exists s',
    update 1000 0.25 0.75 (init 0 0 100) = Some s'
    /\ Rabs (lat s' - lat (init 0 0 100))
       <= 0.1 * radius (init 0 0 100) + noise_amplitude (init 0 0 100).
Proof.
  destruct (change_per_call_bounded (init 0 0 100) 1000 0.25 0.75)
    as (s' & E & (H & _) & _).
  - apply reachable_init.
  - unfold is_sample; lra.
  - unfold is_sample; lra.
  - exists s'. split; [exact E | exact H].
Defined.

(** *** Calls without noise *)

Lemma init_in_disc (a b c : R) : in_disc (init a b c).
Proof. unfold in_disc. simpl. rewrite cos_0, sin_0. nra. Qed.

Lemma update_noiseless (k : tick) (s s' : t) :
  configured s -> noiseless k ->
  in_disc s /\ derivatives_track 0 s ->
  update (tick_dt k) (tick_rnd_lat k) (tick_rnd_lng k) s = Some s' ->
  in_disc s' /\ derivatives_track 0 s'.
Proof.
  intros Hc [Hu Hv] [Hd Ht] E. split.
  - destruct Hc as (Hw & Hr & Hf & Ha).
    destruct (update_inv _ _ _ _ _ E)
      as (_ & _ & (F1 & F2 & _ & F4 & _) & (El & Eg & _) & _).
    unfold in_disc in *. rewrite F1, F2, F4, El, Eg, Hu, Hv.
    rewrite Hr, Hf in *.
    pose proof (disc_blend (lat s - base_lat s) (lng s - base_lng s)
                  (cos (angle s')) (sin (angle s')) 0.0008
                  ltac:(lra) Hd (cos_sin_unit _)) as H.
    eapply Rle_trans; [| exact H]. right. f_equal; f_equal; lra.
  - apply (update_derivatives_track (tick_dt k) (tick_rnd_lat k)
             (tick_rnd_lng k) 0 s s' Hc); try assumption;
      rewrite ?Hu, ?Hv; lra.
Qed.

Lemma run_noiseless (ks : list tick) (s s' : t) :
  configured s -> Forall noiseless ks ->
  in_disc s /\ derivatives_track 0 s ->
  run ks s = Some s' ->
  configured s' /\ in_disc s' /\ derivatives_track 0 s'.
Proof.
  revert s. induction ks as [| k ks IH]; intros s Hc Hn Hi; simpl.
  - intros [= <-]. auto.
  - inversion Hn as [| ? ? Hk Hks]; subst.
    destruct (update _ _ _ s) as [s1 |] eqn:E; [| discriminate].
    apply IH; [eapply update_configured; eauto | exact Hks |].
    eapply update_noiseless; eauto.
Qed.

(** X8: when every call draws 0.5 on both axes (zero noise), then from a
    freshly constructed model and whatever the [dt] values, the position
    stays within [radius] of the centre, the velocity is exactly
    [angular_speed] times the quarter-turned offset of the position from
    the centre, and the acceleration exactly minus [angular_speed ^ 2] times
    that offset. *)
Theorem noiseless_motion_is_a_rotation
    (init_lat init_lng init_alt : R) (ks : list tick) :
  Forall noiseless ks ->
  exists s,
    run ks (init init_lat init_lng init_alt) = Some s
    /\ dist_to_center s <= radius s
    /\ (vel_lat s = - (angular_speed s * (lng s - base_lng s))
        /\ vel_lng s = angular_speed s * (lat s - base_lat s))
    /\ (acc_lat s = - (angular_speed s ^ 2 * (lat s - base_lat s))
        /\ acc_lng s = - (angular_speed s ^ 2 * (lng s - base_lng s))).
Proof.
  intros Hn.
  destruct (run_total ks (init init_lat init_lng init_alt)) as [s E].
  exists s. split; [exact E |].
  destruct (run_noiseless ks _ s (init_configured _ _ _) Hn
              (conj (init_in_disc _ _ _)
                    (init_derivatives_track _ _ _ 0 (Rle_refl 0))) E)
    as ((Hw & Hr & _) & Hd & (T1 & T2) & (T3 & T4)).
  cbv zeta in T1, T2, T3, T4.
  split.
  - unfold dist_to_center. apply sqrt_le_of_sq; [rewrite Hr; lra | exact Hd].
  - rewrite Hw in *. repeat split; lra.
Qed.

Lemma noiseless_motion_is_a_rotation_witness :
  exists s,
    run [mk_tick 3 0.5 0.5; mk_tick 0.01 0.5 0.5] (init 0 0 100) = Some s
    /\ dist_to_center s <= radius s
    /\ (vel_lat s = - (angular_speed s * (lng s - base_lng s))
        /\ vel_lng s = angular_speed s * (lat s - base_lat s))
    /\ (acc_lat s = - (angular_speed s ^ 2 * (lat s - base_lat s))
        /\ acc_lng s = - (angular_speed s ^ 2 * (lng s - base_lng s))).
Proof.
  apply (noiseless_motion_is_a_rotation 0 0 100).
  repeat constructor.
Defined.

End PhysicsKinematics.

(** ** Further facts about the connection handler *)

Section HandlerSchedules.
Import Handler.

Local Open Scope string_scope.
Local Open Scope list_scope.

(** As in the section above: chains one event of a schedule into the run: a physics-loop iteration
    whose send succeeds through [step_tick_ok], any other event by
    evaluating [step]. *)
Ltac take_event :=
  match goal with
  | |- context [step ?self ?st (EvTick ?now ?u ?v ?ts SendOk)] =>
      let p := fresh "p" in
      destruct (step_tick_ok self st _ _ now u v ts eq_refl) as (p & _ & ->);
      cbv iota beta
  | |- context [step ?self ?st ?ev] =>
      let r :=
        eval cbv beta iota zeta delta
               [step accept ctl sent log drone_physics]
        in (step self st ev) in
      change (step self st ev) with r; cbv iota beta
  end.

(** *** The receive side *)

Lemma step_inbound (self : DroneSimulator) (st st' : state) (ev : event) :
  is_inbound ev = true ->
  step self st ev = Some st' ->
  sent st' = sent st
  /\ drone_physics st' = drone_physics st
  /\ physics_loop_of (ctl st') = physics_loop_of (ctl st).
Proof.
  unfold step; cbv zeta.
  destruct (ctl st) as [| last_time loop handler |];
    destruct ev as [| | message outcome | cause |]; try discriminate;
    intros _.
  - destruct handler; [| discriminate].
    destruct outcome; intros [= <-]; simpl; auto.
  - destruct handler; [| discriminate]. intros [= <-]; simpl; auto.
Qed.

(** X10: whatever the client sends and however [json.loads] and the receive
    loop end, a stretch of the run made of receive-side events only hands
    nothing to [websocket.send], leaves the trajectory model untouched and
    leaves the physics loop as it was: no inbound frame has an outbound
    effect. *)
Theorem inbound_traffic_has_no_outbound_effect
    (self : DroneSimulator) (evs : list event) (st st' : state) :
  Forall (fun ev => is_inbound ev = true) evs ->
  handle_client self evs st = Some st' ->
  sent st' = sent st
  /\ drone_physics st' = drone_physics st
  /\ physics_loop_of (ctl st') = physics_loop_of (ctl st).
Proof.
  intros Hin. revert st.
  induction Hin as [| ev evs Hev _ IH]; intros st; simpl.
  - intros [= <-]. auto.
  - destruct (step self st ev) as [st1 |] eqn:E; [| discriminate].
    intros Hrun.
    destruct (step_inbound self st st1 ev Hev E) as (H1 & H2 & H3).
    destruct (IH st1 Hrun) as (H4 & H5 & H6).
    repeat split; congruence.
Qed.

Lemma inbound_traffic_has_no_outbound_effect_witness :
  let self := simulator_init 9002 "drone-sim-1" in
  let st := {| drone_physics := drone_physics (accept self);
               ctl := Gathering 0 Running Running;
               sent := [(welcome_msg self, SendOk)];
               log := [LogIncoming; LogEstablished] |} in
  exists st',
    handle_client self
      [EvMessage (TextFrame "{}") Loaded;
       EvMessage (TextFrame "not json") RaisesJSONDecodeError;
       EvMessage (BinaryFrame [Byte.xff]) RaisesException] st = Some st'
    /\ sent st' = sent st
    /\ drone_physics st' = drone_physics st
    /\ physics_loop_of (ctl st') = physics_loop_of (ctl st).
Proof.
  intros self st. eexists. split; [reflexivity |].
  apply (inbound_traffic_has_no_outbound_effect self
           [EvMessage (TextFrame "{}") Loaded;
            EvMessage (TextFrame "not json") RaisesJSONDecodeError;
            EvMessage (BinaryFrame [Byte.xff]) RaisesException] st).
  - repeat constructor.
  - reflexivity.
Defined.

(** *** Calls of [websocket.send] *)

Lemma step_send_count (self : DroneSimulator) (st st' : state) (ev : event) :
  step self st ev = Some st' ->
  List.length (sent st') =
  (List.length (sent st) + if calls_send ev then 1 else 0)%nat.
Proof.
  unfold step; cbv zeta.
  destruct (ctl st) as [| last_time loop handler |].
  - destruct ev as [outcome now | | | |]; try discriminate.
    destruct outcome; intros [= <-]; simpl; rewrite length_app; reflexivity.
  - destruct ev as [| now u v timestamp outcome | message outcome | cause |].
    + discriminate.
    + destruct loop; [| discriminate].
      destruct (update_total (now - last_time) u v (drone_physics st))
        as [p ->].
      destruct outcome; intros [= <-]; simpl; rewrite length_app;
        reflexivity.
    + destruct handler; [| discriminate].
      destruct outcome; intros [= <-]; simpl; lia.
    + destruct handler; [| discriminate]. intros [= <-]; simpl; lia.
    + destruct loop, handler; try discriminate. intros [= <-]; simpl; lia.
  - discriminate.
Qed.

(** X11: in every run of the handler, the number of frames handed to
    [websocket.send] is the number of welcome and physics-loop events of the
    schedule: every iteration of the physics loop sends exactly one frame,
    the one whose send then fails included, and nothing else sends. *)
Theorem one_frame_per_iteration
    (self : DroneSimulator) (evs : list event) (st : state) :
  handle_client self evs (accept self) = Some st ->
  List.length (frames st) = List.length (filter calls_send evs).
Proof.
  unfold frames. rewrite length_map.
  assert (H : forall evs st0 st1,
             handle_client self evs st0 = Some st1 ->
             List.length (sent st1) =
             (List.length (sent st0) + List.length (filter calls_send evs))%nat).
  { clear. induction evs as [| ev evs IH]; intros st0 st1; simpl.
    - intros [= <-]. lia.
    - destruct (step self st0 ev) as [st2 |] eqn:E; [| discriminate].
      intros Hrun. rewrite (IH _ _ Hrun), (step_send_count _ _ _ _ E).
      destruct (calls_send ev); simpl; lia. }
  intros Hrun. rewrite (H _ _ _ Hrun). reflexivity.
Qed.

Lemma one_frame_per_iteration_witness :
  let self := simulator_init 9002 "drone-sim-1" in
  let evs := [EvWelcome SendOk 0;
              EvTick 0.01 0.25 0.75 "2024-01-01T00:00:00.010000+00:00" SendOk;
              EvMessage (TextFrame "not json") RaisesJSONDecodeError;
              EvTick 0.02 0.5 0.5 "2024-01-01T00:00:00.020000+00:00" SendOk;
              EvReceiveEnd IterationEnded;
              EvTick 0.03 0.9 0.1 "2024-01-01T00:00:00.030000+00:00" SendOk] in
  exists st,
    handle_client self evs (accept self) = Some st
    /\ List.length (frames st) = 4%nat.
Proof.
  intros self evs.
  assert (Hrun : exists st, handle_client self evs (accept self) = Some st).
  { unfold evs, handle_client. do 6 take_event. eauto. }
  destruct Hrun as [st Hrun]. exists st. split; [exact Hrun |].
  rewrite (one_frame_per_iteration self evs st Hrun). reflexivity.
Defined.

(** *** What a telemetry frame carries *)

Lemma gps_update_level (self : DroneSimulator) (p p' : DronePhysics.t)
    (dt u v : R) (timestamp : string) :
  DronePhysics.alt p = base_altitude self ->
  DronePhysics.update dt u v p = Some p' ->
  DronePhysics.alt p' = base_altitude self
  /\ level_telemetry self (gps_update self p' timestamp).
Proof.
  intros Ha E.
  destruct (update_inv _ _ _ _ _ E)
    as (_ & _ & _ & (_ & _ & Ealt) & (_ & _ & Ev) & (_ & _ & Ec)
        & (Tl & Tg & Ta)).
  split; [congruence |].
  unfold level_telemetry, gps_update.
  rewrite Ev, Ec, Tl, Tg, Ta, Ealt, Ha.
  do 7 eexists. reflexivity.
Qed.

Lemma accept_level_flight (self : DroneSimulator) :
  level_flight self (accept self).
Proof. split; [reflexivity | constructor]. Qed.

Lemma step_level_flight (self : DroneSimulator) (st st' : state) (ev : event) :
  level_flight self st -> step self st ev = Some st' -> level_flight self st'.
Proof.
  intros [Ha Hs]. unfold step, level_flight; cbv zeta.
  assert (Hw : forall outcome,
             Forall (fun c => fst c = welcome_msg self
                              \/ level_telemetry self (fst c))
               (sent st ++ [(welcome_msg self, outcome)])).
  { intros. apply Forall_app. split; [exact Hs |]. repeat constructor. }
  destruct (ctl st) as [| last_time loop handler |].
  - destruct ev as [outcome now | | | |]; try discriminate.
    destruct outcome; intros [= <-]; simpl; auto.
  - destruct ev as [| now u v timestamp outcome | message outcome | cause |].
    + discriminate.
    + destruct loop; [| discriminate].
      destruct (DronePhysics.update _ _ _ _) as [p |] eqn:E.
      * destruct (gps_update_level self _ p _ _ _ timestamp Ha E)
          as [Ha' Hf].
        assert (Hg : forall outcome,
                   Forall (fun c => fst c = welcome_msg self
                                    \/ level_telemetry self (fst c))
                     (sent st ++ [(gps_update self p timestamp, outcome)])).
        { intros. apply Forall_app. split; [exact Hs |].
          constructor; [right; exact Hf | constructor]. }
        destruct outcome; intros [= <-]; simpl; auto.
      * intros [= <-]; simpl; auto.
    + destruct handler; [| discriminate].
      destruct outcome; intros [= <-]; simpl; auto.
    + destruct handler; [| discriminate]. intros [= <-]; simpl; auto.
    + destruct loop, handler; try discriminate. intros [= <-]; simpl; auto.
  - discriminate.
Qed.

Lemma level_telemetry_is_gps (self : DroneSimulator) (frame : json) :
  level_telemetry self frame -> is_gps frame.
Proof.
  intros (la & lo & vl & vg & al & ag & ts & ->). reflexivity.
Qed.

(** X12: in every run of the handler, every gps frame handed to
    [websocket.send] carries the simulator's drone id, the base altitude,
    a zero vertical velocity and acceleration, and a target equal to the
    latitude, longitude and altitude the frame reports. *)
Theorem telemetry_frames_fly_level
    (self : DroneSimulator) (evs : list event) (st : state) :
  handle_client self evs (accept self) = Some st ->
  Forall (fun frame => is_gps frame -> level_telemetry self frame)
    (frames st).
Proof.
  intros Hrun.
  destruct (run_events_invariant self (level_flight self)
              (step_level_flight self) evs (accept self) st
              (accept_level_flight self) Hrun) as [_ Hs].
  unfold frames. apply Forall_map.
  rewrite Forall_forall in *. intros c Hin Hg.
  destruct (Hs c Hin) as [Hw | Hl]; [| exact Hl].
  rewrite Hw in Hg. discriminate Hg.
Qed.

Lemma telemetry_frames_fly_level_witness :
  let self := simulator_init 9002 "drone-sim-1" in
  exists st,
    handle_client self
      [EvWelcome SendOk 0; EvTick 0.01 0.5 0.5 "t1" SendOk] (accept self)
    = Some st
    /\ Forall (fun frame => is_gps frame -> level_telemetry self frame)
         (frames st).
Proof.
  intros self.
  assert (Hrun : exists st,
             handle_client self
               [EvWelcome SendOk 0; EvTick 0.01 0.5 0.5 "t1" SendOk]
               (accept self) = Some st).
  { unfold handle_client.
    change (step self (accept self) (EvWelcome SendOk 0))
      with (Some {| drone_physics := drone_physics (accept self);
                    ctl := Gathering 0 Running Running;
                    sent := [(welcome_msg self, SendOk)];
                    log := [LogIncoming; LogEstablished] |}).
    cbv iota beta.
    match goal with
    | |- context [step self ?st1 (EvTick ?now ?u ?v ?ts SendOk)] =>
        destruct (step_tick_ok self st1 0 Running now u v ts eq_refl)
          as (p & _ & ->)
    end.
    eauto. }
  destruct Hrun as [st Hrun]. exists st. split; [exact Hrun |].
  apply (telemetry_frames_fly_level self _ st Hrun).
Defined.

(** *** After the physics loop has ended *)

Lemma step_after_loop_done (self : DroneSimulator) (st st' : state)
    (ev : event) :
  physics_loop_of (ctl st) = Some Done \/ ctl st = Returned ->
  step self st ev = Some st' ->
  (physics_loop_of (ctl st') = Some Done \/ ctl st' = Returned)
  /\ sent st' = sent st /\ drone_physics st' = drone_physics st.
Proof.
  unfold step; cbv zeta.
  destruct (ctl st) as [| last_time loop handler |];
    intros [H | H]; try discriminate.
  simpl in H. injection H as ->.
  destruct ev as [| now u v timestamp outcome | message outcome | cause |];
    try discriminate.
  - destruct handler; [| discriminate].
    destruct outcome; intros [= <-]; simpl; auto.
  - destruct handler; [| discriminate]. intros [= <-]; simpl; auto.
  - destruct handler; try discriminate. intros [= <-]; simpl; auto.
Qed.

(** X14: once the physics loop of a connection has ended, nothing is handed
    to [websocket.send] any more and the trajectory model stays as the last
    iteration left it, whatever happens next on the connection. *)
Theorem nothing_sent_after_physics_loop_ends
    (self : DroneSimulator) (evs : list event) (st st' : state) :
  physics_loop_of (ctl st) = Some Done ->
  handle_client self evs st = Some st' ->
  sent st' = sent st /\ drone_physics st' = drone_physics st.
Proof.
  intros Hd.
  assert (H : forall evs st0 st1,
             physics_loop_of (ctl st0) = Some Done \/ ctl st0 = Returned ->
             handle_client self evs st0 = Some st1 ->
             sent st1 = sent st0 /\ drone_physics st1 = drone_physics st0).
  { clear. induction evs as [| ev evs IH]; intros st0 st1 H0; simpl.
    - intros [= <-]. auto.
    - destruct (step self st0 ev) as [st2 |] eqn:E; [| discriminate].
      intros Hrun.
      destruct (step_after_loop_done self st0 st2 ev H0 E) as (H2 & S2 & P2).
      destruct (IH st2 st1 H2 Hrun) as (S1 & P1).
      split; congruence. }
  apply H. left. exact Hd.
Qed.

Lemma nothing_sent_after_physics_loop_ends_witness :
  let self := simulator_init 9002 "drone-sim-1" in
  let st := {| drone_physics := drone_physics (accept self);
               ctl := Gathering 0 Done Running;
               sent := [(welcome_msg self, SendOk)];
               log := [LogIncoming; LogEstablished; LogPhysicsError] |} in
  exists st',
    handle_client self
      [EvMessage (TextFrame "{}") Loaded; EvReceiveEnd IterationEnded;
       EvGatherDone] st = Some st'
    /\ sent st' = sent st /\ drone_physics st' = drone_physics st.
Proof.
  intros self st. eexists. split; [reflexivity |].
  apply (nothing_sent_after_physics_loop_ends self
           [EvMessage (TextFrame "{}") Loaded; EvReceiveEnd IterationEnded;
            EvGatherDone] st);
    reflexivity.
Defined.

End HandlerSchedules.
